(** * The request-handling core of the server-side-rendering middleware

  A shallow embedding of [src/lib/index.js]: the handler chain
  ([compose_handlers]), pathname normalisation ([set_req_pathname]), the
  asset handler factory ([get_asset_handler]), the route dispatcher
  ([get_route_handler] with its [handle_route] and [find_route]), the
  not-found handler and [try_serialize].

  JavaScript strings are taken as sequences of 8-bit code units, which is
  how the HTTP layer hands over the request line.  Objects used as
  dictionaries are finite maps.  A handler is the script of effects and
  [next()] invocations it performs on the request/response pair. *)

From Stdlib Require Import Ascii String Bool Arith Lia List.
From stdpp Require Import base strings gmap list.

Set Default Proof Using "Type".

(** ** JavaScript strings *)

Module Js.

Definition LF : ascii := "010"%char.
Definition CR : ascii := "013"%char.
Definition newline : string := String LF EmptyString.
Definition dquote : string := String "034"%char EmptyString.

(** The characters the regular-expression atom [.] refuses. *)
Definition is_line_terminator (c : ascii) : bool :=
  Ascii.eqb c LF || Ascii.eqb c CR.

(** What is left of [s] once a greedy [.*] has consumed all it can. *)
Fixpoint after_dots (s : string) : string :=
  match s with
  | EmptyString => EmptyString
  | String c rest => if is_line_terminator c then s else after_dots rest
  end.

(** [s.replace(/\?.+/, '')]: the leftmost match of a question mark followed
    by one or more [.] characters is cut out; without a match [s] is
    returned as it is. *)
Fixpoint replace_query (s : string) : string :=
  match s with
  | EmptyString => EmptyString
  | String c rest =>
      if Ascii.eqb c "?"%char then
        match rest with
        | EmptyString => s
        | String d rest' =>
            if is_line_terminator d
            then String c (replace_query rest)
            else after_dots rest'
        end
      else String c (replace_query rest)
  end.

(** [s.indexOf(c)], with [None] for -1. *)
Fixpoint index_of (c : ascii) (s : string) : option nat :=
  match s with
  | EmptyString => None
  | String d rest =>
      if Ascii.eqb d c then Some 0 else S <$> index_of c rest
  end.

(** [String.prototype.toLowerCase] on 8-bit code units: A-Z and the
    Latin-1 capitals (0xC0-0xDE except the multiplication sign 0xD7) move
    up by 0x20. *)
Definition lower_char (c : ascii) : ascii :=
  let n := nat_of_ascii c in
  if ((65 <=? n) && (n <=? 90)) || ((192 <=? n) && (n <=? 222) && negb (n =? 215))
  then ascii_of_nat (n + 32)
  else c.

Fixpoint toLowerCase (s : string) : string :=
  match s with
  | EmptyString => EmptyString
  | String c rest => String (lower_char c) (toLowerCase rest)
  end.

(** [s.split('\n')]. *)
Fixpoint split_lines (s : string) : list string :=
  match s with
  | EmptyString => [EmptyString]
  | String c rest =>
      if Ascii.eqb c LF then EmptyString :: split_lines rest
      else match split_lines rest with
           | [] => [String c EmptyString]
           | l :: ls => String c l :: ls
           end
  end.

(** [lines.join('\n')]. *)
Fixpoint join_lines (ls : list string) : string :=
  match ls with
  | [] => EmptyString
  | [l] => l
  | l :: rest => l +:+ newline +:+ join_lines rest
  end.

(** Truthiness of a string value. *)
Definition nonempty (s : string) : bool :=
  match s with EmptyString => false | String _ _ => true end.

(** No code unit of [s] is a line terminator. *)
Fixpoint single_line (s : string) : bool :=
  match s with
  | EmptyString => true
  | String c rest => negb (is_line_terminator c) && single_line rest
  end.

End Js.

(** ** Values, errors, requests and responses *)

Inductive js_value :=
| JUndefined
| JText (s : string)
| JDict (d : gmap string string).

(** An object that was thrown: the properties the dispatcher reads, each
  [None] when absent, and the text [String(err)] gives. *)
Record error_object := ErrorObject {
  err_name : option string;
  err_details : option string;
  err_message : option string;
  err_stack : option string;
  err_text : string
}.

(** Anything can be thrown, not only objects. *)
Inductive thrown :=
| ThrownUndefined
| ThrownNull
| ThrownText (s : string)
| ThrownObject (o : error_object).

(** The result of evaluating something that may throw. *)
Inductive outcome (A : Type) :=
| Returns (a : A)
| Throws (e : thrown).
Arguments Returns {A} a.
Arguments Throws {A} e.

Record request := Request {
  url : string;
  method : string;
  (** added by [set_req_pathname]; every chain of this file runs it first *)
  pathname : string;
  params : js_value;
  query : js_value
}.

Record response := Response {
  statusCode : nat;
  headers : gmap string string;
  (** the chunks handed to [write] and [end], oldest first *)
  body : list string;
  ended : bool
}.

(** What a handler receives besides [next]. *)
Record exchange := Exchange { req : request; res : response }.

Definition setHeader (name value : string) (x : exchange) : exchange :=
  let r := res x in
  Exchange (req x)
    (Response (statusCode r) (<[name := value]> (headers r)) (body r) (ended r)).

Definition set_statusCode (code : nat) (x : exchange) : exchange :=
  let r := res x in
  Exchange (req x) (Response code (headers r) (body r) (ended r)).

Definition res_write (chunk : string) (x : exchange) : exchange :=
  let r := res x in
  Exchange (req x)
    (Response (statusCode r) (headers r) (body r ++ [chunk]) (ended r)).

(** [res.end(data)]; [data] is [None] for [undefined]. *)
Definition res_end (data : option string) (x : exchange) : exchange :=
  let r := res x in
  Exchange (req x)
    (Response (statusCode r) (headers r)
       (body r ++ match data with Some d => [d] | None => [] end) true).

Definition set_pathname (p : string) (x : exchange) : exchange :=
  let q := req x in
  Exchange (Request (url q) (method q) p (params q) (query q)) (res x).

Definition set_params (v : js_value) (x : exchange) : exchange :=
  let q := req x in
  Exchange (Request (url q) (method q) (pathname q) v (query q)) (res x).

(** A request as the server hands it over, and the untouched response. *)
Definition incoming (m u : string) (q : js_value) : exchange :=
  Exchange (Request u m EmptyString JUndefined q) (Response 200 ∅ [] false).

(** ** The handler chain: [compose_handlers] *)

Section Chain.

(** The chain is generic in what it passes along ([req] and [res]). *)
Context {X : Type}.

(** What a handler does with its three arguments: it touches the request
    and response, and it calls [next()], any number of times.  A handler
    that calls [next()] from a later callback is the same script: the event
    loop runs nothing else of this request in between. *)
Inductive action :=
| Eff (f : X → X)
| Proceed.

Definition handler := X → list action.

(** The observable steps of one run of the composed handler. *)
Inductive event :=
| Started (k : nat)     (* handlers[k] was called *)
| Proceeded (k : nat)   (* the continuation given to handlers[k] was called *)
| Fallback.             (* the outer next was called *)

(** The closure state of one run: the cursor [i], the request/response
    pair, and the steps taken so far. *)
Record chain := Chain { cursor : nat; payload : X; log : list event }.

Definition touch (f : X → X) (st : chain) : chain :=
  Chain (cursor st) (f (payload st)) (log st).

Definition record (e : event) (st : chain) : chain :=
  Chain (cursor st) (payload st) (log st ++ [e]).

(** [i += 1] in the continuation given to handlers[k]. *)
Definition advance (k : nat) (st : chain) : chain :=
  Chain (S (cursor st)) (payload st) (log st ++ [Proceeded k]).

(** The body of handlers[k], with [go] standing for the recursive call
    the continuation makes. *)
Fixpoint run_actions (go : chain → option chain) (k : nat)
    (acts : list action) (st : chain) : option chain :=
  match acts with
  | [] => Some st
  | Eff f :: rest => run_actions go k rest (touch f st)
  | Proceed :: rest =>
      match go (advance k st) with
      | Some st' => run_actions go k rest st'
      | None => None
      end
  end.

(** [go()]: the nesting depth of the calls is bounded by [fuel]. *)
Fixpoint go (fuel : nat) (handlers : list handler) (st : chain) : option chain :=
  match fuel with
  | 0 => None
  | S fuel' =>
      match handlers !! cursor st with
      | Some h =>
          run_actions (go fuel' handlers) (cursor st) (h (payload st))
            (record (Started (cursor st)) st)
      | None => Some (record Fallback st)
      end
  end.

(** [compose_handlers(handlers)(req, res, next)]. *)
Definition compose_handlers (handlers : list handler) (x : X) : option chain :=
  go (S (length handlers)) handlers (Chain 0 x []).

(** What the effects of a script make of [x], the calls of [next()] left
    aside. *)
Fixpoint effects (acts : list action) (x : X) : X :=
  match acts with
  | [] => x
  | Eff f :: rest => effects rest (f x)
  | Proceed :: rest => effects rest x
  end.

(** How often a script calls [next()]. *)
Fixpoint proceeds (acts : list action) : nat :=
  match acts with
  | [] => 0
  | Eff _ :: rest => proceeds rest
  | Proceed :: rest => S (proceeds rest)
  end.

(** Every handler of the list calls [next()] at most once per request. *)
Definition proceed_at_most_once (handlers : list handler) : Prop :=
  ∀ h x, h ∈ handlers → proceeds (h x) ≤ 1.

Definition is_proceeded (e : event) : bool :=
  match e with Proceeded _ => true | _ => false end.

Definition is_fallback (e : event) : bool :=
  match e with Fallback => true | _ => false end.

Definition count (p : event → bool) (l : list event) : nat :=
  length (List.filter p l).

(** A handler is started only after its predecessor has called [next()]. *)
Definition sequential (l : list event) : Prop :=
  ∀ l1 l2 k, l = l1 ++ Started (S k) :: l2 → In (Proceeded k) l1.

(** The behaviour the composed handler is expected to have on [x]. *)
Definition chain_discipline (handlers : list handler) (x : X) : Prop :=
  ∃ st, compose_handlers handlers x = Some st
    ∧ sequential (log st)
    ∧ cursor st = count is_proceeded (log st)
    ∧ cursor st ≤ length handlers
    ∧ count is_fallback (log st) = (if cursor st =? length handlers then 1 else 0).

(** [Started a, Proceeded a, ..., Started (b-1), Proceeded (b-1)]. *)
Definition relay (a b : nat) : list event :=
  flat_map (λ k, [Started k; Proceeded k]) (seq a (b - a)).

Definition closing (handlers : list handler) (c : nat) : event :=
  if c <? length handlers then Started c else Fallback.

(** What the chain has logged when handler [k] has just been started. *)
Definition reached (k : nat) : list event := relay 0 k ++ [Started k].

(** The indices of the handlers a run has started, in the order of their
    start. *)
Fixpoint started (l : list event) : list nat :=
  match l with
  | [] => []
  | Started k :: rest => k :: started rest
  | _ :: rest => started rest
  end.

(** The handlers started so far are distinct and none lies beyond the
    cursor ([strict]: all lie before it). *)
Definition orderly (strict : bool) (st : chain) : Prop :=
  NoDup (started (log st))
  ∧ Forall (λ k, if strict then k < cursor st else k ≤ cursor st) (started (log st)).

(** A handler that, whatever it is given, calls [next()] once, as its last
    act. *)
Definition passes_on (h : handler) : Prop :=
  ∀ x, ∃ acts, h x = acts ++ [Proceed] ∧ proceeds acts = 0.

(** What a list of handlers that pass on makes of [x], one after the
    other. *)
Definition through (handlers : list handler) (x : X) : X :=
  foldl (λ y h, effects (h y) y) x handlers.

End Chain.

Arguments action : clear implicits.
Arguments handler : clear implicits.
Arguments chain : clear implicits.

(** ** Pathname normalisation: [set_req_pathname] *)

Definition set_req_pathname : handler exchange :=
  λ _, [Eff (λ x, set_pathname (Js.replace_query (url (req x))) x); Proceed].

(** ** Asset handlers: [get_asset_handler] *)

Module Opts.
Record t := Make {
  filter : string → bool;
  type : string;
  cache : string;
  fn : string → option string
}.
End Opts.

Definition get_asset_handler (opts : Opts.t) : handler exchange :=
  λ x,
    if negb (Opts.filter opts (pathname (req x))) then [Proceed]
    else [ Eff (setHeader "Content-Type" (Opts.type opts));
           Eff (setHeader "Cache-Control" (Opts.cache opts));
           Eff (λ x, res_end (Opts.fn opts (pathname (req x))) x) ].

(** ** The asset cache, the route table and the server modules *)

Module Client.
Record t := Make {
  index : string;
  service_worker : string;
  chunks : gmap string string;
  main_file : string;
  routes : gmap string string
}.
End Client.

Module Server.
Record t := Make { entry : string }.
End Server.

Record asset_cache := AssetCache { client : Client.t; server : Server.t }.

Module Route.
Inductive kind := page | endpoint.
Record t := Make {
  id : string;
  type : kind;
  test : string → bool;
  exec : string → js_value
}.
End Route.

(** What a page module's [render] returns. *)
Module Rendered.
Record css_t := Css { code : string }.
Record t := Make { html : string; head : string; css : option css_t }.
End Rendered.

(** A script of effects that may end by throwing. *)
Definition guarded : Type := list (action exchange) * option thrown.

(** One export of the server bundle.  [preload] is [None] when the module
    has none; called, it throws or returns, and what it returns settles as a
    value or a rejection.  [exports] holds the own properties of the module
    object as an endpoint request meets them: each one as what it does when
    it is called with [(req, res, next)].  What the object inherits is in
    [Object_prototype] below. *)
Record server_module := ServerModule {
  preload : option (request → outcome (outcome (gmap string js_value)));
  render : gmap string js_value → outcome Rendered.t;
  exports : gmap string (exchange → guarded)
}.

(** ** Templates *)

(** The property bags handed to [templates.render]. *)
Inductive stack_prop :=
| StackText (s : string)
| StackValue (e : thrown).

Inductive props :=
| PageProps (scripts html head styles : string)
| NotFoundProps (title : string) (status : nat) (method scripts url : string)
| ErrorProps (title url error : string) (stack : stack_prop).

Inductive slot := Scripts | Html | Head | Styles.

#[global] Instance slot_eq_dec : EqDecision slot.
Proof. solve_decision. Defined.

(** The text of the streamed document around its slots. *)
Record skeleton := Skeleton { lead : string; trail : slot → string }.

(** What the modules of the repository outside this file provide. *)
Record site := Site {
  routes : list Route.t;                                  (* route_manager.routes *)
  require : string → outcome (gmap string server_module); (* require(server.entry) *)
  templates_render : nat → props → string;                (* templates.render *)
  stream_skeleton : skeleton;                             (* the template templates.stream fills *)
  escape_html : string → string;                          (* escape-html *)
  serialize : gmap string js_value → outcome string       (* serialize-javascript *)
}.

(** Modelled from the spec: [templates.stream] of templates.js, which is not
    among the sources.  The slots sit in the template in the fixed order
    scripts, html, head, styles. *)
Definition slot_order : list slot := [Scripts; Html; Head; Styles].

Inductive written :=
| Literal (s : string)
| Fragment (k : slot) (s : string).

Definition text (w : written) : string :=
  match w with Literal s => s | Fragment _ s => s end.

(** Modelled from the spec: the state of the streaming assembler of
    templates.js: the slots not yet flushed, in template order; the
    values that have resolved; what has been written. *)
Record assembler := Assembler {
  waiting : list slot;
  ready : slot → option string;
  output : list written
}.

(** Modelled from the spec: the flush step of [templates.stream]: slots
    are released from the front of the waiting list for as long as their
    value is there, each followed by the template text after it. *)
Fixpoint flush (tpl : skeleton) (ready : slot → option string)
    (waiting : list slot) : list written * list slot :=
  match waiting with
  | [] => ([], [])
  | k :: rest =>
      match ready k with
      | Some v =>
          let '(ws, later) := flush tpl ready rest in
          (Fragment k v :: Literal (trail tpl k) :: ws, later)
      | None => ([], waiting)
      end
  end.

(** Modelled from the spec: one slot computation of [templates.stream]
    resolves; its value is buffered and whatever can go out is flushed. *)
Definition arrive (tpl : skeleton) (a : assembler) (kv : slot * string) : assembler :=
  let ready' := λ j, if decide (j = kv.1) then Some kv.2 else ready a j in
  let '(ws, later) := flush tpl ready' (waiting a) in
  Assembler later ready' (output a ++ ws).

(** Modelled from the spec: [templates.stream] starts by writing the
    template text before the first slot. *)
Definition stream_start (tpl : skeleton) : assembler :=
  Assembler slot_order (λ _, None) [Literal (lead tpl)].

Definition stream_run (tpl : skeleton) (arrivals : list (slot * string)) : assembler :=
  foldl (arrive tpl) (stream_start tpl) arrivals.

(** One slot of the document with the template text after it. *)
Definition fragment_of (tpl : skeleton) (value : slot → string) (k : slot)
    : list written :=
  [Fragment k (value k); Literal (trail tpl k)].

(** The whole document, as the writes that make it up. *)
Definition document (tpl : skeleton) (value : slot → string) : list written :=
  Literal (lead tpl) :: flat_map (fragment_of tpl value) slot_order.

(** The assembler after the slots of [arrival] have resolved, in that
    order, each to its [value]. *)
Definition run_with (tpl : skeleton) (value : slot → string) (arrival : list slot)
    : assembler :=
  stream_run tpl (map (λ k, (k, value k)) arrival).

(** The state of the assembler once the slots [seen] have resolved: what is
    written is the document up to the first slot still waiting, the buffer
    holds the values of the slots seen, and the first waiting slot is not
    among them. *)
Definition assembled (tpl : skeleton) (value : slot → string)
    (seen : list slot) (a : assembler) : Prop :=
  (∃ flushed, slot_order = flushed ++ waiting a
     ∧ output a = Literal (lead tpl) :: flat_map (fragment_of tpl value) flushed)
  ∧ (∀ k, ready a k = if decide (k ∈ seen) then Some (value k) else None)
  ∧ match waiting a with
    | k :: _ => k ∉ seen
    | [] => True
    end.

(** Modelled from the spec: [templates.stream(res, 200, slots)] of
    templates.js as the dispatcher sees it.  The four slot values are
    projections of one shared computation; [arrival] is the order in which
    they resolve.  When the shared computation fails, the text before the
    first slot has gone out and the failure is passed on. *)
Definition templates_stream (tpl : skeleton) (slots : outcome (slot → string))
    (arrival : list slot) : guarded :=
  match slots with
  | Returns value =>
      let a := run_with tpl value arrival in
      (map (λ w, Eff (res_write (text w))) (output a)
         ++ match waiting a with [] => [Eff (res_end None)] | _ => [] end,
       None)
  | Throws e => ([Eff (res_write (lead tpl))], Some e)
  end.

(** ** The route dispatcher: [get_route_handler] *)

Definition try_serialize (S : site) (data : gmap string js_value) : option string :=
  match serialize S data with
  | Returns s => Some s
  | Throws _ => None
  end.

Definition main_script (c : Client.t) : string :=
  "<script src='" +:+ Client.main_file c +:+ "'></script>".

Definition head_markup (head : string) : string :=
  "<noscript id='sapper-head-start'></noscript>" +:+ head
    +:+ "<noscript id='sapper-head-end'></noscript>".

Definition styles_markup (css : option Rendered.css_t) : string :=
  match css with
  | Some c =>
      if Js.nonempty (Rendered.code c)
      then "<style>" +:+ Rendered.code c +:+ "</style>"
      else EmptyString
  | None => EmptyString
  end.

(** The [scripts] slot, from what [try_serialize] gave. *)
Definition scripts_markup (c : Client.t) (serialized : option string) : string :=
  match serialized with
  | Some s =>
      if Js.nonempty s
      then "<script>__SAPPER__ = { preloaded: " +:+ s +:+ " };</script>" +:+ main_script c
      else main_script c
  | None => main_script c
  end.

(** The four projections of [{ rendered, serialized }]. *)
Definition slot_value (c : Client.t) (up : Rendered.t * option string) (k : slot) : string :=
  match k with
  | Scripts => scripts_markup c up.2
  | Html => Rendered.html up.1
  | Head => head_markup (Rendered.head up.1)
  | Styles => styles_markup (Rendered.css up.1)
  end.

(** The [then] callback on the preloaded data: serialize, merge into
    [data], render. *)
Definition preloaded_then (S : site) (m : server_module)
    (data : gmap string js_value) (settled : outcome (gmap string js_value))
    : outcome (Rendered.t * option string) :=
  match settled with
  | Throws e => Throws e
  | Returns preloaded =>
      let serialized := try_serialize S preloaded in
      match render m (preloaded ∪ data) with
      | Returns rendered => Returns (rendered, serialized)
      | Throws e => Throws e
      end
  end.

Definition slots_of (c : Client.t) (up : outcome (Rendered.t * option string))
    : outcome (slot → string) :=
  match up with
  | Returns r => Returns (slot_value c r)
  | Throws e => Throws e
  end.

(** The [Link] header of a page. *)
Definition preload_link (c : Client.t) (route_id : string) : string :=
  "<" +:+ Client.main_file c +:+ ">;rel=" +:+ Js.dquote +:+ "preload" +:+ Js.dquote
    +:+ ";as=" +:+ Js.dquote +:+ "script" +:+ Js.dquote +:+ ", <"
    +:+ default "undefined" (Client.routes c !! route_id)
    +:+ ">;rel=" +:+ Js.dquote +:+ "preload" +:+ Js.dquote
    +:+ ";as=" +:+ Js.dquote +:+ "script" +:+ Js.dquote.

Definition method_export (method : string) : string :=
  let m := Js.toLowerCase method in
  if String.eqb m "delete" then "del" else m.

(** The error the engine raises when a property of [undefined] is read;
    the frames it appends to the stack are left out. *)
Definition TypeError (message : string) : thrown :=
  ThrownObject
    (ErrorObject (Some "TypeError") None (Some message)
       (Some ("TypeError: " +:+ message)) ("TypeError: " +:+ message)).

(** The members of [Object.prototype], which every module object inherits,
    as [handler(req, res, next)] meets them.  [Object(req)] and [toString()]
    return without touching the response; the other functions refuse their
    undefined receiver; [__proto__] is an object, and calling it throws.
    None of them calls [next]. *)
Definition Object_prototype (name : string) : option (exchange → guarded) :=
  if String.eqb name "constructor" || String.eqb name "toString"
  then Some (λ _, ([], None))
  else if existsb (String.eqb name)
            [ "toLocaleString"; "valueOf"; "hasOwnProperty"; "isPrototypeOf";
              "propertyIsEnumerable"; "__defineGetter__"; "__defineSetter__";
              "__lookupGetter__"; "__lookupSetter__" ]
  then Some (λ _, ([], Some (TypeError "Cannot convert undefined or null to object")))
  else if String.eqb name "__proto__"
  then Some (λ _, ([], Some (TypeError "handler is not a function")))
  else None.

(** [mod[name]], when it is truthy: an own property of the module first,
    an inherited one otherwise. *)
Definition property_of (m : server_module) (name : string)
    : option (exchange → guarded) :=
  match exports m !! name with
  | Some h => Some h
  | None => Object_prototype name
  end.

Definition handle_route (S : site) (route : Route.t) (x : exchange)
    (cache : asset_cache) : guarded :=
  let assign_params := Eff (λ x, set_params (Route.exec route (pathname (req x))) x) in
  let x1 := set_params (Route.exec route (pathname (req x))) x in
  match require S (Server.entry (server cache)) with
  | Throws e => ([assign_params], Some e)
  | Returns bundle =>
      let exported := bundle !! Route.id route in
      match Route.type route with
      | Route.page =>
          let link :=
            Eff (setHeader "Link" (preload_link (client cache) (Route.id route))) in
          let data : gmap string js_value :=
            <["params" := params (req x1)]> (<["query" := query (req x1)]> ∅) in
          match exported with
          | None =>
              ([assign_params; link],
               Some (TypeError "Cannot read property 'preload' of undefined"))
          | Some m =>
              match preload m with
              | Some pre =>
                  match pre (req x1) with
                  | Throws e => ([assign_params; link], Some e)
                  | Returns settled =>
                      let '(acts, err) :=
                        templates_stream (stream_skeleton S)
                          (slots_of (client cache) (preloaded_then S m data settled))
                          slot_order in
                      ([assign_params; link] ++ acts, err)
                  end
              | None =>
                  match render m data with
                  | Throws e => ([assign_params; link], Some e)
                  | Returns r =>
                      let page :=
                        templates_render S 200
                          (PageProps (main_script (client cache)) (Rendered.html r)
                             (head_markup (Rendered.head r))
                             (styles_markup (Rendered.css r))) in
                      ([assign_params; link; Eff (res_end (Some page))], None)
                  end
              end
          end
      | Route.endpoint =>
          match exported with
          | None =>
              ([assign_params],
               Some (TypeError ("Cannot read property '"
                                  +:+ method_export (method (req x))
                                  +:+ "' of undefined")))
          | Some m =>
              match property_of m (method_export (method (req x))) with
              | Some h => let '(acts, err) := h x1 in (assign_params :: acts, err)
              | None => ([assign_params; Proceed], None)
              end
          end
      end
  end.

(** The [for] loop of [find_route]: the first route that tests positive. *)
Fixpoint first_match (table : list Route.t) (url : string) : option Route.t :=
  match table with
  | [] => None
  | route :: rest => if Route.test route url then Some route else first_match rest url
  end.

(** ** The error page *)

Definition truthy (e : thrown) : bool :=
  match e with
  | ThrownUndefined | ThrownNull => false
  | ThrownText s => Js.nonempty s
  | ThrownObject _ => true
  end.

(** [err.p] for one of the properties, when it is there and truthy. *)
Definition truthy_prop (p : error_object → option string) (e : thrown) : option string :=
  match e with
  | ThrownObject o =>
      match p o with
      | Some s => if Js.nonempty s then Some s else None
      | None => None
      end
  | _ => None
  end.

(** ['' + err]. *)
Definition to_text (e : thrown) : string :=
  match e with
  | ThrownUndefined => "undefined"
  | ThrownNull => "null"
  | ThrownText s => s
  | ThrownObject o => err_text o
  end.

(** [(err && err.name) || 'Internal server error'] *)
Definition error_title (e : thrown) : string :=
  if truthy e then default "Internal server error" (truthy_prop err_name e)
  else "Internal server error".

(** [err && (err.details || err.message || err) || 'Unknown error'] *)
Definition error_detail (e : thrown) : string :=
  if truthy e then
    match truthy_prop err_details e with
    | Some d => d
    | None => default (to_text e) (truthy_prop err_message e)
    end
  else "Unknown error".

(** [err && err.stack.split('\n').slice(1).join('\n')] *)
Definition error_stack (e : thrown) : outcome stack_prop :=
  if truthy e then
    match e with
    | ThrownObject (ErrorObject _ _ _ (Some stack) _) =>
        Returns (StackText (Js.join_lines (tail (Js.split_lines stack))))
    | _ => Throws (TypeError "Cannot read property 'split' of undefined")
    end
  else Returns (StackValue e).

(** The [catch] callback of [find_route]. *)
Definition on_error (S : site) (url : string) (e : thrown) : list (action exchange) :=
  Eff (set_statusCode 500)
    :: match error_stack e with
       | Returns stack =>
           [Eff (res_end
                   (Some (templates_render S 500
                            (ErrorProps (error_title e) url
                               (escape_html S (error_detail e)) stack))))]
       | Throws _ => []
       end.

Definition find_route (S : site) (cache : asset_cache) : handler exchange :=
  λ x,
    let url := pathname (req x) in
    let '(acts, err) :=
      match first_match (routes S) url with
      | Some route =>
          handle_route S route (setHeader "Content-Type" "text/html" x) cache
      | None => ([Proceed], None)
      end in
    Eff (setHeader "Content-Type" "text/html")
      :: acts ++ match err with Some e => on_error S url e | None => [] end.

Definition get_route_handler (S : site) (cache : asset_cache) : handler exchange :=
  find_route S cache.

(** ** The not-found handler *)

Definition handle_not_found (S : site) (cache : asset_cache) : handler exchange :=
  λ _,
    [ Eff (set_statusCode 404);
      Eff (λ x,
        res_end
          (Some (templates_render S 404
                   (NotFoundProps "Not found" 404 (method (req x))
                      (main_script (client cache)) (url (req x)))))
          x) ].

Definition get_not_found_handler (S : site) (cache : asset_cache) : handler exchange :=
  handle_not_found S cache.

(** ** The production middleware: [connect_prod] *)

Definition index_handler (cache : asset_cache) : handler exchange :=
  get_asset_handler
    (Opts.Make (λ pathname, String.eqb pathname "/index.html")
       "text/html" "max-age=600"
       (λ _, Some (Client.index (client cache)))).

Definition service_worker_handler (cache : asset_cache) : handler exchange :=
  get_asset_handler
    (Opts.Make (λ pathname, String.eqb pathname "/service-worker.js")
       "application/javascript" "max-age=600"
       (λ _, Some (Client.service_worker (client cache)))).

Definition chunk_handler (cache : asset_cache) : handler exchange :=
  get_asset_handler
    (Opts.Make (λ pathname, String.prefix "/client/" pathname)
       "application/javascript" "max-age=31536000"
       (λ pathname, Client.chunks (client cache) !! pathname)).

Definition prod_handlers (S : site) (cache : asset_cache) : list (handler exchange) :=
  [ set_req_pathname;
    index_handler cache;
    service_worker_handler cache;
    chunk_handler cache;
    get_route_handler S cache;
    get_not_found_handler S cache ].

Definition connect_prod (S : site) (cache : asset_cache) (x : exchange)
    : option (chain exchange) :=
  compose_handlers (prod_handlers S cache) x.

(** The endpoint handlers of the site call [next()] at most once. *)
Definition endpoints_proceed_at_most_once (S : site) : Prop :=
  ∀ entry bundle id m name (h : exchange → guarded) y,
    require S entry = Returns bundle →
    bundle !! id = Some m →
    exports m !! name = Some h →
    proceeds (h y).1 ≤ 1.

(** ** A small site, for concrete runs *)

Module Demo.

(** The five replacements of the escape-html package. *)
Fixpoint escape_html (s : string) : string :=
  match s with
  | EmptyString => EmptyString
  | String c rest =>
      (if Ascii.eqb c "034"%char then "&quot;"
       else if Ascii.eqb c "&"%char then "&amp;"
       else if Ascii.eqb c "'"%char then "&#39;"
       else if Ascii.eqb c "<"%char then "&lt;"
       else if Ascii.eqb c ">"%char then "&gt;"
       else String c EmptyString) +:+ escape_html rest
  end.

Definition stack_text (p : stack_prop) : string :=
  match p with
  | StackText s => s
  | StackValue e => to_text e
  end.

Definition templates_render (status : nat) (p : props) : string :=
  match p with
  | PageProps scripts html head styles =>
      "<head>" +:+ head +:+ styles +:+ "</head><body>" +:+ html +:+ scripts +:+ "</body>"
  | NotFoundProps title _ method scripts url =>
      "<h1>" +:+ title +:+ "</h1><p>" +:+ method +:+ " " +:+ url +:+ "</p>" +:+ scripts
  | ErrorProps title url error stack =>
      "<h1>" +:+ title +:+ "</h1><p>" +:+ url +:+ "</p><pre>" +:+ error
        +:+ "</pre><pre>" +:+ stack_text stack +:+ "</pre>"
  end.

Definition stream_skeleton : skeleton :=
  Skeleton "<body>"
    (λ k, match k with
          | Scripts => "<main>"
          | Html => "</main><aside>"
          | Head => "</aside>"
          | Styles => "</body>"
          end).

(** Serialization fails on data that holds a [cycle] entry. *)
Definition serialize (data : gmap string js_value) : outcome string :=
  match data !! "cycle" with
  | Some _ => Throws (TypeError "Converting circular structure to JSON")
  | None => Returns "{title:1}"
  end.

Definition about : server_module :=
  ServerModule None
    (λ _, Returns (Rendered.Make "<p>About</p>" EmptyString None))
    ∅.

Definition post_data (title : string) : gmap string js_value :=
  <["title" := JText title]> ∅.

(** A page with [preload]: [/blog/loop] preloads data that cannot be
    serialized, [/blog/gone] rejects with a plain object, every other post
    preloads its title. *)
Definition blog : server_module :=
  ServerModule
    (Some (λ r,
       if String.eqb (pathname r) "/blog/loop"
       then Returns (Returns (<["cycle" := JUndefined]> (post_data "Loop")))
       else if String.eqb (pathname r) "/blog/gone"
       then Returns (Throws (ThrownObject
               (ErrorObject None None (Some "no <such> post") None "[object Object]")))
       else Returns (Returns (post_data "Hello"))))
    (λ data,
       match data !! "title" with
       | Some (JText t) =>
           Returns (Rendered.Make ("<h1>" +:+ t +:+ "</h1>") "<title>Blog</title>"
                      (Some (Rendered.Css "h1{color:red}")))
       | _ => Throws (ThrownText "no title")
       end)
    ∅.

(** A page whose [render] throws a string. *)
Definition crash : server_module :=
  ServerModule None (λ _, Throws (ThrownText "<b>boom</b>")) ∅.

(** A page whose [render] throws an [Error]. *)
Definition fail : server_module :=
  ServerModule None
    (λ _, Throws (ThrownObject
       (ErrorObject (Some "Error") None (Some "a < b")
          (Some ("Error: a < b" +:+ Js.newline +:+ "    at render (fail.js:3:9)"))
          "Error: a < b")))
    ∅.

(** An endpoint module with [get] and [del]. *)
Definition items : server_module :=
  ServerModule None
    (λ _, Throws (TypeError "mod.render is not a function"))
    (<["get" := λ _, ([Eff (res_end (Some "[1,2]"))], None)]>
       (<["del" := λ _, ([Eff (set_statusCode 204); Eff (res_end None)], None)]> ∅)).

Definition bundle : gmap string server_module :=
  <["about" := about]> (<["blog_slug" := blog]> (<["crash" := crash]>
    (<["fail" := fail]> (<["api_items" := items]> ∅)))).

Definition no_params : string → js_value := λ _, JDict ∅.

Definition routes : list Route.t :=
  [ Route.Make "about" Route.page (λ p, String.eqb p "/about") no_params;
    Route.Make "crash" Route.page (λ p, String.eqb p "/crash") no_params;
    Route.Make "fail" Route.page (λ p, String.eqb p "/fail") no_params;
    Route.Make "api_items" Route.endpoint (λ p, String.eqb p "/api/items") no_params;
    Route.Make "blog_slug" Route.page (λ p, String.prefix "/blog/" p)
      (λ p, JDict (<["slug" := substring 6 (String.length p) p]> ∅));
    Route.Make "about" Route.page (λ p, String.eqb p "/blog/first") no_params ].

Definition site : site :=
  Site routes
    (λ entry,
       if String.eqb entry "server/main.js" then Returns bundle
       else Throws (TypeError "Cannot find module"))
    templates_render stream_skeleton escape_html serialize.

Definition cache : asset_cache :=
  AssetCache
    (Client.Make "<!doctype html>" "self.skipWaiting()"
       (<["/client/app.abcd1234.js" := "console.log(1)"]> ∅)
       "/client/main.js"
       (<["about" := "/client/about.js"]> (<["blog_slug" := "/client/blog.js"]> ∅)))
    (Server.Make "server/main.js").

Definition get (u : string) : exchange := incoming "GET" u JUndefined.

(** A handler that calls [next()] twice, and one that never does. *)
Definition twice : handler unit := λ _, [Proceed; Proceed].
Definition silent : handler unit := λ _, [].
Definition once : handler unit := λ _, [Proceed].

End Demo.

(** * Properties *)

(** ** Strings *)

Lemma after_dots_single_line (s : string) :
  Js.single_line s = true → Js.after_dots s = EmptyString.
Proof.
  induction s as [|c rest IH]; simpl; [done|].
  destruct (Js.is_line_terminator c); simpl; [done | exact IH].
Qed.

Lemma index_of_bound (c : ascii) (s : string) (i : nat) :
  Js.index_of c s = Some i → i < String.length s.
Proof.
  revert i. induction s as [|d rest IH]; intros i; simpl; [done|].
  destruct (Ascii.eqb d c).
  - intros [= <-]. lia.
  - destruct (Js.index_of c rest) as [j|]; simpl; [|done].
    intros [= <-]. specialize (IH j eq_refl). lia.
Qed.

(** On a single line the replacement cuts from the first question mark on,
    unless nothing follows it. *)
Lemma replace_query_single_line (s : string) :
  Js.single_line s = true →
  Js.replace_query s =
    match Js.index_of "?" s with
    | Some i => if S i <? String.length s then substring 0 i s else s
    | None => s
    end.
Proof.
  induction s as [|c rest IH]; [done|].
  cbn [Js.single_line Js.replace_query Js.index_of].
  intros [Hc Hrest]%andb_prop.
  destruct (Ascii.eqb c "?") eqn:Ec.
  - destruct rest as [|d rest']; [done|].
    cbn [Js.single_line] in Hrest. apply andb_prop in Hrest as [Hd Hrest'].
    apply negb_true_iff in Hd. rewrite Hd.
    by rewrite (after_dots_single_line _ Hrest').
  - rewrite (IH Hrest).
    destruct (Js.index_of "?" rest) as [i|] eqn:Ei; simpl; [|done].
    change (S (S i) <? S (String.length rest)) with (S i <? String.length rest).
    by destruct (S i <? String.length rest).
Qed.

Lemma index_of_trailing (c : ascii) (p : string) :
  Js.index_of c p = None →
  Js.index_of c (p +:+ String c EmptyString) = Some (String.length p).
Proof.
  induction p as [|d rest IH]; simpl.
  - by rewrite Ascii.eqb_refl.
  - destruct (Ascii.eqb d c); [done|].
    destruct (Js.index_of c rest); [done|]. intros _. by rewrite IH.
Qed.

Lemma length_trailing (p : string) (c : ascii) :
  String.length (p +:+ String c EmptyString) = S (String.length p).
Proof. induction p as [|d rest IH]; simpl; [done | by rewrite IH]. Qed.

(** ** [set_req_pathname] *)

(** C10.  On a request URL, which holds no line terminator,
    [set_req_pathname] sets [req.pathname] to the URL cut at its first
    question mark when at least one character follows that question mark, and
    to the whole URL otherwise: in particular a URL that ends in its only
    question mark keeps it.  [req.url] and the response stay as they are,
    and [next()] is called once. *)
Theorem set_req_pathname_drops_query (x : exchange) :
  Js.single_line (url (req x)) = true →
  let u := url (req x) in
  let x' := effects (set_req_pathname x) x in
  pathname (req x') =
    match Js.index_of "?" u with
    | Some i => if S i <? String.length u then substring 0 i u else u
    | None => u
    end
  ∧ (∀ p, u = p +:+ "?" → Js.index_of "?" p = None → pathname (req x') = u)
  ∧ url (req x') = u
  ∧ res x' = res x
  ∧ proceeds (set_req_pathname x) = 1.
Proof.
  intros Hline u x'. subst u x'. cbn.
  rewrite (replace_query_single_line _ Hline).
  split_and!; try done.
  intros p Hp Hnone. rewrite Hp.
  rewrite (index_of_trailing _ _ Hnone), length_trailing.
  by rewrite Nat.ltb_irrefl.
Qed.

Lemma set_req_pathname_drops_query_witness :
  Js.single_line "/blog/first?page=2&sort=asc" = true
  ∧ pathname (req (effects (set_req_pathname (Demo.get "/blog/first?page=2&sort=asc"))
                     (Demo.get "/blog/first?page=2&sort=asc"))) = "/blog/first".
Proof.
  split; [reflexivity|].
  exact (proj1 (set_req_pathname_drops_query
                  (Demo.get "/blog/first?page=2&sort=asc") eq_refl)).
Defined.

(** ** [compose_handlers] *)

Section ChainFacts.

Context {X : Type}.
Implicit Types (hs : list (handler X)) (st : chain X) (acts : list (action X)).

Lemma run_actions_app (g : chain X → option (chain X)) k acts1 acts2 st :
  run_actions g k (acts1 ++ acts2) st =
    run_actions g k acts1 st ≫= run_actions g k acts2.
Proof.
  revert st. induction acts1 as [|[f|] rest IH]; intros st; simpl; [done| apply IH |].
  destruct (g (advance k st)) as [st1|]; simpl; [apply IH | done].
Qed.

(** *** The run always comes to an end *)

Lemma run_actions_total (g : chain X → option (chain X)) k (c0 : nat) :
  (∀ st, S c0 ≤ cursor st → ∃ st', g st = Some st' ∧ cursor st ≤ cursor st') →
  ∀ acts st, c0 ≤ cursor st →
    ∃ st', run_actions g k acts st = Some st' ∧ cursor st ≤ cursor st'.
Proof.
  intros Hg acts. induction acts as [|[f|] rest IH]; intros st Hc; simpl.
  - eauto.
  - destruct (IH (touch f st)) as (st' & Hrun & Hle); [done|]. eauto.
  - destruct (Hg (advance k st)) as (st1 & -> & H1); [simpl; lia|].
    destruct (IH st1) as (st' & Hrun & Hle); [simpl in H1; lia|].
    exists st'. split; [done|]. simpl in H1. lia.
Qed.

Lemma go_total hs fuel st :
  length hs - cursor st < fuel →
  ∃ st', go fuel hs st = Some st' ∧ cursor st ≤ cursor st'.
Proof.
  revert st. induction fuel as [|fuel IH]; intros st Hfuel; [lia|]. simpl.
  destruct (hs !! cursor st) as [h|] eqn:Eh; [|eauto].
  apply lookup_lt_Some in Eh.
  assert (Hg : ∀ st1, S (cursor st) ≤ cursor st1 →
            ∃ st', go fuel hs st1 = Some st' ∧ cursor st1 ≤ cursor st').
  { intros st1 H1. apply IH. unfold handler in *. lia. }
  destruct (run_actions_total _ (cursor st) _ Hg (h (payload st))
              (record (Started (cursor st)) st)) as (st' & Hrun & Hle); [done|].
  by exists st'.
Qed.

Lemma compose_handlers_total hs (x : X) : is_Some (compose_handlers hs x).
Proof.
  destruct (go_total hs (S (length hs)) (Chain 0 x [])) as (st & Hrun & _);
    [simpl; lia|].
  by exists st.
Qed.

(** *** Handlers that call [next()] at most once *)

Lemma run_actions_once (g : chain X → option (chain X)) k acts st st' :
  proceeds acts ≤ 1 →
  run_actions g k acts st = Some st' →
  (proceeds acts = 0 ∧ cursor st' = cursor st ∧ log st' = log st)
  ∨ (proceeds acts = 1 ∧
     ∃ st0 st1, cursor st0 = cursor st ∧ log st0 = log st
       ∧ g (advance k st0) = Some st1
       ∧ cursor st' = cursor st1 ∧ log st' = log st1).
Proof.
  revert st. induction acts as [|[f|] rest IH]; intros st Hle; simpl.
  - intros [= <-]. by left.
  - intros Hrun. by destruct (IH (touch f st) Hle Hrun) as [?|(? & st0 & st1 & ?)];
      [left | right; split; [done|]; exists st0, st1].
  - simpl in Hle. destruct (g (advance k st)) as [st1|] eqn:Eg; [|done].
    intros Hrun. right. split; [lia|].
    destruct (IH st1 ltac:(lia) Hrun) as [(_ & Hc & Hl)|(? & _)]; [|lia].
    by exists st, st1.
Qed.

Lemma relay_nil a : relay a a = [].
Proof. unfold relay. by rewrite Nat.sub_diag. Qed.

Lemma relay_cons a b :
  a < b → relay a b = Started a :: Proceeded a :: relay (S a) b.
Proof.
  intros Hlt. unfold relay.
  replace (b - a) with (S (b - S a)) by lia. done.
Qed.

Lemma relay_snoc a b :
  a ≤ b → relay a (S b) = relay a b ++ [Started b; Proceeded b].
Proof.
  intros Hle. unfold relay.
  replace (S b - a) with (S (b - a)) by lia.
  rewrite seq_S, flat_map_app. simpl.
  by replace (a + (b - a)) with b by lia.
Qed.

(** The steps of a run whose handlers call [next()] at most once: the
    handlers are started one after the other, each on its predecessor's
    [next()], up to the first that keeps the request or the end of the
    list. *)
Lemma go_relay hs fuel st st' :
  proceed_at_most_once hs →
  cursor st ≤ length hs →
  go fuel hs st = Some st' →
  cursor st ≤ cursor st' ≤ length hs
  ∧ log st' = log st ++ relay (cursor st) (cursor st') ++ [closing hs (cursor st')].
Proof.
  intros Hpol. revert st st'. induction fuel as [|fuel IH]; intros st st' Hc; [done|].
  simpl. destruct (hs !! cursor st) as [h|] eqn:Eh.
  - pose proof (lookup_lt_Some _ _ _ Eh) as Hlt. unfold handler in *.
    intros Hrun. apply run_actions_once in Hrun;
      [|by eapply Hpol, list_elem_of_lookup_2].
    destruct Hrun as [(_ & Hcur & Hlog)|(_ & st0 & st1 & Hc0 & Hl0 & Hg & Hc1 & Hl1)];
      simpl in *.
    + rewrite Hcur, Hlog, relay_nil. split; [lia|].
      unfold closing, handler in *.
      by destruct (Nat.ltb_spec (cursor st) (length hs)); [|lia].
    + apply IH in Hg; [|simpl; lia]. destruct Hg as [Hrange Hlog]. simpl in *.
      rewrite Hc1, Hl1, Hlog, Hl0, Hc0. split; [lia|].
      rewrite (relay_cons (cursor st) (cursor st1)) by lia.
      by rewrite <- !app_assoc.
  - apply lookup_ge_None in Eh. unfold handler in *. intros [= <-]. simpl.
    rewrite relay_nil. split; [lia|].
    unfold closing, handler in *.
    by destruct (Nat.ltb_spec (cursor st) (length hs)); [lia|].
Qed.

Lemma count_app (p : event → bool) (l1 l2 : list event) :
  count p (l1 ++ l2) = count p l1 + count p l2.
Proof. unfold count. by rewrite List.filter_app, length_app. Qed.

Lemma sequential_snoc (l : list event) (e : event) :
  sequential l →
  (∀ k, e = Started (S k) → In (Proceeded k) l) →
  sequential (l ++ [e]).
Proof.
  intros Hl He l1 l2 k. destruct l2 as [|y l2 _] using rev_ind.
  - intros [-> ->]%app_inj_tail. by apply He.
  - rewrite app_comm_cons, app_assoc. intros [-> _]%app_inj_tail.
    by apply (Hl l1 l2 k).
Qed.

Lemma relay_shape (c : nat) :
  sequential (relay 0 c)
  ∧ (∀ k, k < c → In (Proceeded k) (relay 0 c))
  ∧ count is_proceeded (relay 0 c) = c
  ∧ count is_fallback (relay 0 c) = 0.
Proof.
  induction c as [|c (Hseq & Hin & Hp & Hf)].
  - rewrite relay_nil. split_and!; try done; [|lia].
    intros l1 l2 k Heq. by destruct l1.
  - rewrite relay_snoc by lia.
    change [Started c; Proceeded c] with ([Started c] ++ [Proceeded c]).
    rewrite app_assoc. split_and!.
    + apply sequential_snoc; [apply sequential_snoc; [done|]|done].
      intros k [= ->]. apply Hin. lia.
    + intros k Hk. apply in_or_app.
      destruct (decide (k = c)) as [->|]; [right; by left|].
      left. apply in_or_app. left. apply Hin. lia.
    + rewrite !count_app, Hp. unfold count. simpl. lia.
    + rewrite !count_app, Hf. by unfold count.
Qed.

(** C3, amended.  When every handler of the list calls its [next()] at most
    once, the composed handler comes to an end and runs the handlers strictly
    one after the other: handler k+1 is started only after handler k has
    called [next()]; the cursor ends at the number of [next()] calls made;
    it never passes the length of the list; and the outer [next] is called
    exactly once when the cursor has reached that length, and not at all
    otherwise. *)
Theorem compose_handlers_sequential hs (x : X) :
  proceed_at_most_once hs → chain_discipline hs x.
Proof.
  intros Hpol. destruct (compose_handlers_total hs x) as [st Hrun].
  exists st. split; [done|].
  apply go_relay in Hrun; [|done|simpl; lia].
  destruct Hrun as [Hrange Hlog]. simpl in *. rewrite Hlog.
  destruct (relay_shape (cursor st)) as (Hseq & Hin & Hp & Hf).
  unfold closing, handler in *.
  split_and!.
  - apply sequential_snoc; [done|].
    intros k. destruct (cursor st <? length hs); [|done].
    intros [= Heq]. apply Hin. lia.
  - rewrite count_app, Hp. unfold count.
    destruct (cursor st <? length hs); simpl; lia.
  - lia.
  - rewrite count_app, Hf. unfold count.
    destruct (Nat.ltb_spec (cursor st) (length hs));
      destruct (Nat.eqb_spec (cursor st) (length hs)); simpl; lia.
Qed.

End ChainFacts.

Lemma compose_handlers_sequential_witness :
  proceed_at_most_once [Demo.once; Demo.silent; Demo.once]
  ∧ chain_discipline [Demo.once; Demo.silent; Demo.once] tt.
Proof.
  assert (Hpol : proceed_at_most_once [Demo.once; Demo.silent; Demo.once]).
  { intros h u Hin.
    repeat (apply elem_of_cons in Hin as [->|Hin]); [simpl; lia..|].
    by apply elem_of_nil in Hin. }
  split; [exact Hpol|].
  exact (compose_handlers_sequential [Demo.once; Demo.silent; Demo.once] tt Hpol).
Defined.

(** C3 as stated, for every list of handlers, fails: a first handler that
    calls [next()] twice gets the third handler started although the second
    never called [next()]. *)
Lemma compose_handlers_twice_counterexample :
  compose_handlers [Demo.twice; Demo.silent; Demo.silent] tt
    = Some (Chain 2 tt [Started 0; Proceeded 0; Started 1; Proceeded 0; Started 2])
  ∧ ¬ chain_discipline [Demo.twice; Demo.silent; Demo.silent] tt.
Proof.
  split; [reflexivity|].
  intros (st & Hrun & Hseq & _).
  vm_compute in Hrun. injection Hrun as <-.
  specialize (Hseq [Started 0; Proceeded 0; Started 1; Proceeded 0] [] 1 eq_refl).
  simpl in Hseq. intuition discriminate.
Qed.

(** With a single handler that calls [next()] twice, the outer [next] is
    called twice. *)
Lemma compose_handlers_fallback_twice :
  log <$> compose_handlers [Demo.twice] tt
    = Some [Started 0; Proceeded 0; Fallback; Proceeded 0; Fallback].
Proof. reflexivity. Qed.

(** ** The streaming assembler *)

Section StreamFacts.

Variable tpl : skeleton.
Variable value : slot → string.

(** What a flush releases is a front piece of the waiting list, and it stops
    at a slot whose value is not there yet. *)
Lemma flush_spec (ready : slot → option string) (ws : list slot) :
  (∀ k v, ready k = Some v → v = value k) →
  ∃ flushed,
    ws = flushed ++ (flush tpl ready ws).2
    ∧ (flush tpl ready ws).1 = flat_map (fragment_of tpl value) flushed
    ∧ match (flush tpl ready ws).2 with
      | k :: _ => ready k = None
      | [] => True
      end.
Proof.
  intros Hval. induction ws as [|k rest (flushed & Hsplit & Hout & Hstop)]; simpl.
  - by exists [].
  - destruct (ready k) as [v|] eqn:Ek.
    + rewrite (Hval _ _ Ek).
      destruct (flush tpl ready rest) as [ws later]. simpl in *.
      exists (k :: flushed). simpl. by rewrite <- Hsplit, Hout.
    + by exists [].
Qed.

Lemma assembled_start : assembled tpl value [] (stream_start tpl).
Proof.
  split_and!.
  - by exists [].
  - intros k. destruct (decide (k ∈ [])) as [Hk|]; [by apply elem_of_nil in Hk | done].
  - apply not_elem_of_nil.
Qed.

Lemma assembled_arrive (seen : list slot) (a : assembler) (j : slot) :
  assembled tpl value seen a →
  assembled tpl value (seen ++ [j]) (arrive tpl a (j, value j)).
Proof.
  intros ((flushed & Hsplit & Hout) & Hready & _). unfold arrive. simpl.
  set (ready' := λ k, if decide (k = j) then Some (value j) else ready a k).
  assert (Hready' : ∀ k, ready' k = if decide (k ∈ seen ++ [j]) then Some (value k) else None).
  { intros k. unfold ready'. rewrite Hready.
    destruct (decide (k = j)) as [->|Hne].
    - rewrite decide_True; [done|].
      apply elem_of_app. right. by apply list_elem_of_singleton.
    - destruct (decide (k ∈ seen)) as [Hin|Hout'].
      + rewrite decide_True; [done|]. apply elem_of_app. by left.
      + rewrite decide_False; [done|].
        by intros [?|?%list_elem_of_singleton]%elem_of_app. }
  destruct (flush_spec ready' (waiting a)) as (more & Hw & Hws & Hstop).
  { intros k v. rewrite Hready'. destruct (decide (k ∈ seen ++ [j])); congruence. }
  destruct (flush tpl ready' (waiting a)) as [ws later]. simpl in *.
  split_and!.
  - exists (flushed ++ more). split.
    + simpl. by rewrite <- app_assoc, <- Hw.
    + simpl. by rewrite Hout, Hws, flat_map_app.
  - done.
  - destruct later as [|k later]; [done|].
    rewrite Hready' in Hstop. by destruct (decide (k ∈ seen ++ [j])).
Qed.

Lemma assembled_run (arrival : list slot) :
  assembled tpl value arrival (run_with tpl value arrival).
Proof.
  induction arrival as [|j arrival IH] using rev_ind.
  - apply assembled_start.
  - unfold run_with, stream_run in *. rewrite map_app, foldl_app. simpl.
    by apply assembled_arrive.
Qed.

Lemma run_prefix (arrival : list slot) :
  output (run_with tpl value arrival) `prefix_of` document tpl value.
Proof.
  destruct (assembled_run arrival) as ((flushed & Hsplit & Hout) & _).
  exists (flat_map (fragment_of tpl value) (waiting (run_with tpl value arrival))).
  unfold document. by rewrite Hout, Hsplit, flat_map_app.
Qed.

Lemma run_complete (arrival : list slot) :
  arrival ≡ₚ slot_order →
  waiting (run_with tpl value arrival) = [] ∧ output (run_with tpl value arrival) = document tpl value.
Proof.
  intros Hperm.
  destruct (assembled_run arrival) as ((flushed & Hsplit & Hout) & _ & Hstop).
  destruct (waiting (run_with tpl value arrival)) as [|k later] eqn:Ew.
  - split; [done|]. rewrite app_nil_r in Hsplit. by rewrite Hout, <- Hsplit.
  - exfalso. apply Hstop. rewrite Hperm, Hsplit.
    apply elem_of_app. right. by left.
Qed.

End StreamFacts.

(** C2.  When a page with [preload] is streamed, whatever the order in which
    the four slot computations resolve, the document goes out in template
    order: the text before the first slot, then scripts, html, head and
    styles, each followed by the template text after it.  At every moment
    of the run what has been written is a front piece of that document, so
    no slot is written before its predecessor. *)
Theorem stream_keeps_slot_order (tpl : skeleton) (c : Client.t)
    (up : Rendered.t * option string) (arrival : list slot) :
  arrival ≡ₚ slot_order →
  let value := slot_value c up in
  output (run_with tpl value arrival) =
    [ Literal (lead tpl);
      Fragment Scripts (value Scripts); Literal (trail tpl Scripts);
      Fragment Html (value Html); Literal (trail tpl Html);
      Fragment Head (value Head); Literal (trail tpl Head);
      Fragment Styles (value Styles); Literal (trail tpl Styles) ]
  ∧ waiting (run_with tpl value arrival) = []
  ∧ ∀ n, output (run_with tpl value (take n arrival))
           `prefix_of` output (run_with tpl value arrival).
Proof.
  intros Hperm value.
  destruct (run_complete tpl value arrival Hperm) as [Hw Hout].
  split_and!; [exact Hout | exact Hw |].
  intros n. rewrite Hout. apply run_prefix.
Qed.

Lemma stream_keeps_slot_order_witness :
  [Head; Scripts; Styles; Html] ≡ₚ slot_order
  ∧ text <$> output (run_with Demo.stream_skeleton
        (slot_value (client Demo.cache)
           (Rendered.Make "<p>hi</p>" "<title>t</title>" None, None))
        [Head; Scripts; Styles; Html])
    = [ "<body>"; "<script src='/client/main.js'></script>"; "<main>";
        "<p>hi</p>"; "</main><aside>";
        "<noscript id='sapper-head-start'></noscript><title>t</title><noscript id='sapper-head-end'></noscript>";
        "</aside>"; EmptyString; "</body>" ].
Proof.
  assert (Hperm : [Head; Scripts; Styles; Html] ≡ₚ slot_order).
  { unfold slot_order. solve_Permutation. }
  split; [exact Hperm|].
  pose proof (stream_keeps_slot_order Demo.stream_skeleton (client Demo.cache)
                (Rendered.Make "<p>hi</p>" "<title>t</title>" None, None)
                [Head; Scripts; Styles; Html] Hperm) as (Hout & _).
  cbv zeta in Hout. rewrite Hout. reflexivity.
Defined.

(** ** The production chain, step by step *)

Section ChainSteps.

Context {X : Type}.
Implicit Types (hs : list (handler X)) (st : chain X) (acts : list (action X)).

Lemma run_actions_quiet (g : chain X → option (chain X)) k acts st :
  proceeds acts = 0 →
  run_actions g k acts st
    = Some (Chain (cursor st) (effects acts (payload st)) (log st)).
Proof.
  revert st. induction acts as [|[f|] rest IH]; intros st Hq; simpl in *.
  - by destruct st.
  - by rewrite IH.
  - done.
Qed.

(** A handler that does not call [next()] ends the run. *)
Lemma go_stop hs fuel st h :
  hs !! cursor st = Some h →
  proceeds (h (payload st)) = 0 →
  go (S fuel) hs st
    = Some (Chain (cursor st) (effects (h (payload st)) (payload st))
              (log st ++ [Started (cursor st)])).
Proof. intros Hh Hq. simpl. rewrite Hh. by rewrite run_actions_quiet. Qed.

(** A handler whose last act is its only [next()] hands over to the
    following one. *)
Lemma go_pass hs fuel st h acts :
  hs !! cursor st = Some h →
  h (payload st) = acts ++ [Proceed] →
  proceeds acts = 0 →
  go (S fuel) hs st
    = go fuel hs (Chain (S (cursor st)) (effects acts (payload st))
                    (log st ++ [Started (cursor st); Proceeded (cursor st)])).
Proof.
  intros Hh Hacts Hq. simpl. rewrite Hh, Hacts, run_actions_app.
  rewrite run_actions_quiet by done. simpl.
  unfold advance. simpl. rewrite <- app_assoc. simpl.
  by destruct (go fuel hs _).
Qed.

End ChainSteps.

Section ProdChain.

Variable S : site.
Variable cache : asset_cache.

Lemma index_handler_pass (x : exchange) :
  String.eqb (pathname (req x)) "/index.html" = false →
  index_handler cache x = [] ++ [Proceed].
Proof. intros H. unfold index_handler, get_asset_handler. simpl. by rewrite H. Qed.

Lemma service_worker_handler_pass (x : exchange) :
  String.eqb (pathname (req x)) "/service-worker.js" = false →
  service_worker_handler cache x = [] ++ [Proceed].
Proof.
  intros H. unfold service_worker_handler, get_asset_handler. simpl. by rewrite H.
Qed.

Lemma chunk_handler_pass (x : exchange) :
  String.prefix "/client/" (pathname (req x)) = false →
  chunk_handler cache x = [] ++ [Proceed].
Proof. intros H. unfold chunk_handler, get_asset_handler. simpl. by rewrite H. Qed.

(** A request whose pathname is a client chunk path ends in the chunk
    handler. *)
Lemma connect_prod_chunk (x : exchange) :
  let p := Js.replace_query (url (req x)) in
  String.eqb p "/index.html" = false →
  String.eqb p "/service-worker.js" = false →
  String.prefix "/client/" p = true →
  connect_prod S cache x =
    Some (Chain 3
            (res_end (Client.chunks (client cache) !! p)
               (setHeader "Cache-Control" "max-age=31536000"
                  (setHeader "Content-Type" "application/javascript"
                     (set_pathname p x))))
            (reached 3)).
Proof.
  intros p Hindex Hsw Hchunk. unfold connect_prod, compose_handlers.
  set (hs := prod_handlers S cache). change (length hs) with 6.
  rewrite (go_pass hs _ _ set_req_pathname
             [Eff (λ x, set_pathname (Js.replace_query (url (req x))) x)]);
    [|done..].
  rewrite (go_pass hs _ _ (index_handler cache) []);
    [|done|by apply index_handler_pass|done].
  rewrite (go_pass hs _ _ (service_worker_handler cache) []);
    [|done|by apply service_worker_handler_pass|done].
  rewrite (go_stop hs _ _ (chunk_handler cache)); [|done|].
  - unfold chunk_handler, get_asset_handler. simpl. fold p. by rewrite Hchunk.
  - unfold chunk_handler, get_asset_handler. simpl. fold p. by rewrite Hchunk.
Qed.

(** A request that no asset handler takes reaches the route handler. *)
Lemma connect_prod_route (x : exchange) :
  let p := Js.replace_query (url (req x)) in
  String.eqb p "/index.html" = false →
  String.eqb p "/service-worker.js" = false →
  String.prefix "/client/" p = false →
  connect_prod S cache x =
    go 3 (prod_handlers S cache)
      (Chain 4 (set_pathname p x) (relay 0 4)).
Proof.
  intros p Hindex Hsw Hchunk. unfold connect_prod, compose_handlers.
  set (hs := prod_handlers S cache). change (length hs) with 6.
  rewrite (go_pass hs _ _ set_req_pathname
             [Eff (λ x, set_pathname (Js.replace_query (url (req x))) x)]);
    [|done..].
  rewrite (go_pass hs _ _ (index_handler cache) []);
    [|done|by apply index_handler_pass|done].
  rewrite (go_pass hs _ _ (service_worker_handler cache) []);
    [|done|by apply service_worker_handler_pass|done].
  rewrite (go_pass hs _ _ (chunk_handler cache) []);
    [|done|by apply chunk_handler_pass|done].
  done.
Qed.

End ProdChain.

(** ** [get_asset_handler] *)

(** C9.  An asset handler whose predicate rejects the pathname only calls
    [next()].  One whose predicate accepts it never calls [next()]: it sets
    Content-Type and Cache-Control to the configured values, leaves the other
    headers, the status and the request alone, and ends the response with
    what the resolver gives for the pathname.  In particular a request for
    [/client/app.abcd1234.js], present in [client.chunks], is answered by the
    production chain with status 200, Content-Type application/javascript,
    Cache-Control max-age=31536000 and the cached bytes as the body. *)
Theorem get_asset_handler_serves (opts : Opts.t) (x : exchange) :
  (Opts.filter opts (pathname (req x)) = false →
     get_asset_handler opts x = [Proceed])
  ∧ (Opts.filter opts (pathname (req x)) = true →
     let x' := effects (get_asset_handler opts x) x in
     proceeds (get_asset_handler opts x) = 0
     ∧ headers (res x') !! "Content-Type" = Some (Opts.type opts)
     ∧ headers (res x') !! "Cache-Control" = Some (Opts.cache opts)
     ∧ (∀ name, name ≠ "Content-Type" → name ≠ "Cache-Control" →
          headers (res x') !! name = headers (res x) !! name)
     ∧ body (res x') =
         body (res x) ++ match Opts.fn opts (pathname (req x)) with
                         | Some bytes => [bytes]
                         | None => []
                         end
     ∧ ended (res x') = true
     ∧ statusCode (res x') = statusCode (res x)
     ∧ req x' = req x)
  ∧ (∀ (S : site) (cache : asset_cache) (q : js_value) (bytes : string),
       Client.chunks (client cache) !! "/client/app.abcd1234.js" = Some bytes →
       ∃ st, connect_prod S cache (incoming "GET" "/client/app.abcd1234.js" q) = Some st
         ∧ log st = reached 3
         ∧ statusCode (res (payload st)) = 200
         ∧ headers (res (payload st)) !! "Content-Type" = Some "application/javascript"
         ∧ headers (res (payload st)) !! "Cache-Control" = Some "max-age=31536000"
         ∧ body (res (payload st)) = [bytes]
         ∧ ended (res (payload st)) = true).
Proof.
  unfold get_asset_handler. split_and!.
  - by intros ->.
  - intros ->. simpl. split_and!; try done.
    + by rewrite lookup_insert_ne, lookup_insert_eq.
    + by rewrite lookup_insert_eq.
    + intros name Hct Hcc. by rewrite !lookup_insert_ne.
  - intros S cache q bytes Hbytes. eexists. split.
    + by apply connect_prod_chunk.
    + simpl. rewrite Hbytes. split_and!; try done.
Qed.

Lemma get_asset_handler_serves_witness :
  index_handler Demo.cache (set_pathname "/about" (Demo.get "/about")) = [Proceed]
  ∧ body (res (effects (chunk_handler Demo.cache
                          (set_pathname "/client/app.abcd1234.js" (Demo.get "/")))
                 (set_pathname "/client/app.abcd1234.js" (Demo.get "/"))))
      = ["console.log(1)"]
  ∧ ∃ st, connect_prod Demo.site Demo.cache
            (incoming "GET" "/client/app.abcd1234.js" JUndefined) = Some st
      ∧ body (res (payload st)) = ["console.log(1)"]
      ∧ headers (res (payload st)) !! "Cache-Control" = Some "max-age=31536000".
Proof.
  split_and!.
  - exact (proj1 (get_asset_handler_serves
                    (Opts.Make (λ pathname, String.eqb pathname "/index.html")
                       "text/html" "max-age=600"
                       (λ _, Some (Client.index (client Demo.cache))))
                    (set_pathname "/about" (Demo.get "/about"))) eq_refl).
  - destruct (get_asset_handler_serves
                (Opts.Make (λ pathname, String.prefix "/client/" pathname)
                   "application/javascript" "max-age=31536000"
                   (λ pathname, Client.chunks (client Demo.cache) !! pathname))
                (set_pathname "/client/app.abcd1234.js" (Demo.get "/")))
      as (_ & Haccept & _).
    destruct (Haccept eq_refl) as (_ & _ & _ & _ & Hbody & _).
    exact Hbody.
  - destruct (get_asset_handler_serves
                (Opts.Make (λ _, true) EmptyString EmptyString (λ _, None))
                (Demo.get "/")) as (_ & _ & Hchunk).
    destruct (Hchunk Demo.site Demo.cache JUndefined "console.log(1)" eq_refl)
      as (st & Hrun & _ & _ & _ & Hcc & Hbody & _).
    exists st. by split_and!.
Defined.

(** C8 at [GET /client/missing.js], a path the chunk predicate accepts and
    the cache does not hold: the chunk handler sets its headers and ends the
    response without a body, with the status left at 200.  The chain stops
    there, so the not-found handler is never started. *)
Theorem chunk_absent_from_cache_ends_empty :
  Client.chunks (client Demo.cache) !! "/client/missing.js" = None
  ∧ ∃ st, connect_prod Demo.site Demo.cache (Demo.get "/client/missing.js") = Some st
      ∧ log st = reached 3
      ∧ ¬ In (Started 5) (log st)
      ∧ statusCode (res (payload st)) = 200
      ∧ body (res (payload st)) = []
      ∧ ended (res (payload st)) = true.
Proof.
  split; [reflexivity|]. eexists. split; [by apply connect_prod_chunk|].
  split_and!; try done.
  simpl. intuition discriminate.
Qed.

(** ** The route dispatcher *)

Section RouteFacts.

Variable S : site.
Variable cache : asset_cache.

Lemma first_match_app (before after : list Route.t) (route : Route.t) (p : string) :
  (∀ r, r ∈ before → Route.test r p = false) →
  Route.test route p = true →
  first_match (before ++ route :: after) p = Some route.
Proof.
  intros Hbefore Hroute. induction before as [|r before IH]; simpl.
  - by rewrite Hroute.
  - rewrite (Hbefore r) by (by left). apply IH.
    intros r' Hr'. apply Hbefore. by right.
Qed.

Lemma first_match_none (table : list Route.t) (p : string) :
  (∀ r, r ∈ table → Route.test r p = false) → first_match table p = None.
Proof.
  intros Hall. induction table as [|r table IH]; simpl; [done|].
  rewrite (Hall r) by (by left). apply IH.
  intros r' Hr'. apply Hall. by right.
Qed.

(** A request that the asset handlers pass on and that the route handler
    passes on as well is answered by the not-found handler. *)
Lemma connect_prod_falls_through (x : exchange) (acts : list (action exchange)) :
  let p := Js.replace_query (url (req x)) in
  String.eqb p "/index.html" = false →
  String.eqb p "/service-worker.js" = false →
  String.prefix "/client/" p = false →
  find_route S cache (set_pathname p x) = acts ++ [Proceed] →
  proceeds acts = 0 →
  connect_prod S cache x =
    Some (Chain 5
            (effects (handle_not_found S cache (effects acts (set_pathname p x)))
               (effects acts (set_pathname p x)))
            (reached 5)).
Proof.
  intros p Hindex Hsw Hchunk Hroute Hquiet.
  rewrite connect_prod_route by done. fold p.
  set (hs := prod_handlers S cache).
  rewrite (go_pass hs _ _ (get_route_handler S cache) acts); [|done..].
  by rewrite (go_stop hs _ _ (get_not_found_handler S cache)).
Qed.

(** C1.  [find_route] dispatches the first route of the table, in
    registration order, whose test accepts the pathname, and only that one:
    after the Content-Type header its script is that of [handle_route] on
    this route, followed by the error page if that throws.  A route whose
    test accepts everything a later route accepts always wins over it.  When
    no test accepts the pathname, [find_route] only calls [next()], and the
    production chain answers with the not-found page, status 404. *)
Theorem find_route_first_match (x : exchange) :
  let p := pathname (req x) in
  let x0 := setHeader "Content-Type" "text/html" x in
  (∀ before route after,
     routes S = before ++ route :: after →
     (∀ r, r ∈ before → Route.test r p = false) →
     Route.test route p = true →
     first_match (routes S) p = Some route
     ∧ find_route S cache x =
         Eff (setHeader "Content-Type" "text/html")
           :: (handle_route S route x0 cache).1
           ++ match (handle_route S route x0 cache).2 with
              | Some e => on_error S p e
              | None => []
              end)
  ∧ (∀ before first between second after,
       routes S = before ++ first :: between ++ second :: after →
       (∀ r, r ∈ before → Route.test r p = false) →
       (∀ q, Route.test second q = true → Route.test first q = true) →
       Route.test second p = true →
       first_match (routes S) p = Some first)
  ∧ ((∀ r, r ∈ routes S → Route.test r p = false) →
       first_match (routes S) p = None
       ∧ find_route S cache x = [Eff (setHeader "Content-Type" "text/html"); Proceed])
  ∧ (let u := Js.replace_query (url (req x)) in
     String.eqb u "/index.html" = false →
     String.eqb u "/service-worker.js" = false →
     String.prefix "/client/" u = false →
     (∀ r, r ∈ routes S → Route.test r u = false) →
     ∃ st, connect_prod S cache x = Some st
       ∧ log st = reached 5
       ∧ statusCode (res (payload st)) = 404
       ∧ body (res (payload st)) =
           body (res x)
             ++ [templates_render S 404
                   (NotFoundProps "Not found" 404 (method (req x))
                      (main_script (client cache)) (url (req x)))]
       ∧ ended (res (payload st)) = true).
Proof.
  intros p x0. split_and!.
  - intros before route after Htable Hbefore Hroute.
    assert (Hfirst : first_match (routes S) p = Some route)
      by (rewrite Htable; by apply first_match_app).
    split; [done|]. unfold find_route. fold p. rewrite Hfirst. fold x0.
    by destruct (handle_route S route x0 cache) as [acts err].
  - intros before first between second after Htable Hbefore Hsuper Hsecond.
    rewrite Htable. apply first_match_app; [done|]. by apply Hsuper.
  - intros Hnone. pose proof (first_match_none _ _ Hnone) as Hfirst.
    split; [done|]. unfold find_route. fold p. by rewrite Hfirst.
  - intros u Hindex Hsw Hchunk Hnone. eexists. split.
    + apply (connect_prod_falls_through x
               [Eff (setHeader "Content-Type" "text/html")]); try done.
      unfold find_route. cbn [pathname req set_pathname]. fold u.
      by rewrite (first_match_none _ _ Hnone).
    + by split_and!.
Qed.

End RouteFacts.

Lemma find_route_first_match_witness :
  first_match (routes Demo.site) "/blog/first"
    = Some (Route.Make "blog_slug" Route.page (λ p, String.prefix "/blog/" p)
              (λ p, JDict (<["slug" := substring 6 (String.length p) p]> ∅)))
  ∧ find_route Demo.site Demo.cache (set_pathname "/nothing" (Demo.get "/nothing"))
      = [Eff (setHeader "Content-Type" "text/html"); Proceed]
  ∧ ∃ st, connect_prod Demo.site Demo.cache (Demo.get "/nothing?") = Some st
      ∧ statusCode (res (payload st)) = 404.
Proof.
  assert (Hrejects : ∀ (p : string) (table : list Route.t),
            forallb (λ r, negb (Route.test r p)) table = true →
            ∀ r, r ∈ table → Route.test r p = false).
  { intros p table Hall r Hr. rewrite forallb_forall in Hall.
    apply negb_true_iff, Hall. by apply list_elem_of_In. }
  split_and!.
  - destruct (find_route_first_match Demo.site Demo.cache
                (set_pathname "/blog/first" (Demo.get "/blog/first")))
      as (Hfirst & Hsuper & _).
    pose (blog := Route.Make "blog_slug" Route.page (λ p, String.prefix "/blog/" p)
                    (λ p, JDict (<["slug" := substring 6 (String.length p) p]> ∅))).
    pose (first := Route.Make "about" Route.page
                     (λ p, String.eqb p "/blog/first") Demo.no_params).
    pose proof (Hfirst (take 4 Demo.routes) blog [first] eq_refl
                  (Hrejects "/blog/first" (take 4 Demo.routes) eq_refl) eq_refl)
      as [Hmatch _].
    refine (Hsuper (take 4 Demo.routes) blog [] first [] eq_refl
              (Hrejects "/blog/first" (take 4 Demo.routes) eq_refl) _ eq_refl).
    intros q Hq. cbn in Hq. apply String.eqb_eq in Hq. by subst q.
  - destruct (find_route_first_match Demo.site Demo.cache
                (set_pathname "/nothing" (Demo.get "/nothing")))
      as (_ & _ & Hnone & _).
    exact (proj2 (Hnone (Hrejects "/nothing" Demo.routes eq_refl))).
  - destruct (find_route_first_match Demo.site Demo.cache (Demo.get "/nothing?"))
      as (_ & _ & _ & Hchain).
    destruct (Hchain eq_refl eq_refl eq_refl (Hrejects "/nothing?" Demo.routes eq_refl))
      as (st & Hrun & _ & Hstatus & _).
    exists st. by split.
Defined.

(** ** Endpoint routes *)





(** ** Pages with [preload]: serialization *)



(** ** The error page *)

Lemma split_lines_nonempty (s : string) : Js.split_lines s ≠ [].
Proof.
  destruct s as [|c rest]; simpl; [done|].
  destruct (Ascii.eqb c Js.LF); [done|]. by destruct (Js.split_lines rest).
Qed.

Lemma join_lines_cons_char (c : ascii) (l : string) (ls : list string) :
  Js.join_lines (String c l :: ls) = String c (Js.join_lines (l :: ls)).
Proof. by destruct ls. Qed.

Lemma join_split_lines (s : string) : Js.join_lines (Js.split_lines s) = s.
Proof.
  induction s as [|c rest IH]; simpl; [done|].
  destruct (Ascii.eqb_spec c Js.LF) as [->|Hc].
  - pose proof (split_lines_nonempty rest) as Hne.
    destruct (Js.split_lines rest) as [|l ls]; [done|].
    cbn [Js.join_lines]. by rewrite <- IH.
  - pose proof (split_lines_nonempty rest) as Hne.
    destruct (Js.split_lines rest) as [|l ls]; [done|].
    by rewrite join_lines_cons_char, IH.
Qed.

Lemma split_lines_first (first rest : string) :
  Js.index_of Js.LF first = None →
  Js.split_lines (first +:+ Js.newline +:+ rest) = first :: Js.split_lines rest.
Proof.
  induction first as [|c first IH]; simpl; [done|].
  destruct (Ascii.eqb c Js.LF); [done|].
  destruct (Js.index_of Js.LF first); [done|]. intros _. by rewrite IH.
Qed.

(** X16.  When the stack of a thrown object has a first line and more, the
    [stack] property handed to the error page is the stack without that first
    line, whatever the rest holds. *)
Lemma error_stack_drops_first_line (o : error_object) (first rest : string) :
  err_stack o = Some (first +:+ Js.newline +:+ rest) →
  Js.index_of Js.LF first = None →
  error_stack (ThrownObject o) = Returns (StackText rest).
Proof.
  intros Hstack Hfirst. destruct o as [name details message stack text].
  cbn [err_stack] in Hstack. subst stack. unfold error_stack, truthy.
  rewrite split_lines_first by done. cbn [tail].
  by rewrite join_split_lines.
Qed.

(** X19.  Whatever was thrown and wherever in the dispatch, when its stack
    can be taken (the value carries one, or is falsy), the catch callback
    sets the status to 500 and ends the response with the 500 template filled
    with the title, the pathname, the escaped detail and the stack; what had
    been written before stays in front of it. *)
Lemma on_error_renders (S : site) (u : string) (e : thrown) (stack : stack_prop)
    (x : exchange) :
  error_stack e = Returns stack →
  let x' := effects (on_error S u e) x in
  statusCode (res x') = 500
  ∧ body (res x') =
      body (res x)
        ++ [templates_render S 500
              (ErrorProps (error_title e) u (escape_html S (error_detail e)) stack)]
  ∧ ended (res x') = true.
Proof. intros Hstack. unfold on_error. by rewrite Hstack. Qed.

(** X17.  A truthy thrown value without a stack (a string, a plain object)
    makes the catch callback itself throw while it builds the page: all it
    does is set the status to 500; it writes nothing and does not end the
    response. *)
Lemma on_error_without_stack (S : site) (u : string) (e : thrown) :
  truthy e = true →
  match e with ThrownObject o => err_stack o = None | _ => True end →
  on_error S u e = [Eff (set_statusCode 500)].
Proof.
  intros Htruthy Hstack. unfold on_error, error_stack. rewrite Htruthy.
  destruct e as [| |s|[name details message stack text]]; try done.
  simpl in Hstack. by subst stack.
Qed.

(** The detail shown prefers [details], then [message], then the thrown
    value itself. *)
Lemma error_detail_preference (o : error_object) :
  error_detail (ThrownObject o) =
    match err_details o, err_message o with
    | Some d, _ => if Js.nonempty d then d
                   else match err_message o with
                        | Some m => if Js.nonempty m then m else err_text o
                        | None => err_text o
                        end
    | None, Some m => if Js.nonempty m then m else err_text o
    | None, None => err_text o
    end.
Proof.
  by destruct o as [name [[|cd d]|] [[|cm m]|] stack text].
Qed.

(** C6 at [GET /crash], a page whose [render] throws the string
    [<b>boom</b>]: the dispatcher catches it and sets the status to 500, but
    the catch callback then reads [stack] off a value that has none and
    throws in turn, so no error page is written: the body stays empty and
    the response is never ended.  An [Error] thrown by [render], as at
    [GET /fail], does get the page with its message escaped. *)
Theorem thrown_text_leaves_no_error_page :
  render Demo.crash
      (<["params" := JDict ∅]> (<["query" := JUndefined]> ∅))
    = Throws (ThrownText "<b>boom</b>")
  ∧ (∃ st, connect_prod Demo.site Demo.cache (Demo.get "/crash") = Some st
       ∧ log st = reached 4
       ∧ statusCode (res (payload st)) = 500
       ∧ body (res (payload st)) = []
       ∧ ended (res (payload st)) = false)
  ∧ (∃ st, connect_prod Demo.site Demo.cache (Demo.get "/fail") = Some st
       ∧ statusCode (res (payload st)) = 500
       ∧ body (res (payload st)) =
           ["<h1>Error</h1><p>/fail</p><pre>a &lt; b</pre><pre>    at render (fail.js:3:9)</pre>"]
       ∧ ended (res (payload st)) = true).
Proof.
  split; [reflexivity|]. split.
  - eexists. split; [vm_compute; reflexivity|]. by split_and!.
  - eexists. split; [vm_compute; reflexivity|]. by split_and!.
Qed.

(** C7 at [GET /blog/gone], a page whose [preload] rejects with a plain
    object that has a message and no stack: taking the stack apart throws
    inside the catch callback, so the response keeps what the stream had
    already written, gets status 500 and is never ended; no error page is
    produced. *)
Theorem error_without_stack_is_not_tolerated :
  error_stack
      (ThrownObject (ErrorObject None None (Some "no <such> post") None "[object Object]"))
    = Throws (TypeError "Cannot read property 'split' of undefined")
  ∧ ∃ st, connect_prod Demo.site Demo.cache (Demo.get "/blog/gone") = Some st
      ∧ log st = reached 4
      ∧ statusCode (res (payload st)) = 500
      ∧ body (res (payload st)) = ["<body>"]
      ∧ ended (res (payload st)) = false.
Proof.
  split; [reflexivity|].
  eexists. split; [vm_compute; reflexivity|]. by split_and!.
Qed.

(** ** The production chain keeps the discipline of the handler chain *)

Section ProdDiscipline.

Variable S : site.
Variable cache : asset_cache.

Lemma proceeds_app {X : Type} (acts1 acts2 : list (action X)) :
  proceeds (acts1 ++ acts2) = proceeds acts1 + proceeds acts2.
Proof.
  induction acts1 as [|[f|] rest IH]; simpl; [done | done | by rewrite IH].
Qed.

Lemma proceeds_effects_only {X A : Type} (f : A → X → X) (l : list A) :
  proceeds (map (λ a, Eff (f a)) l) = 0.
Proof. by induction l. Qed.

Lemma on_error_quiet (u : string) (e : thrown) : proceeds (on_error S u e) = 0.
Proof. unfold on_error. by destruct (error_stack e). Qed.

Lemma templates_stream_quiet (tpl : skeleton) (slots : outcome (slot → string))
    (arrival : list slot) :
  proceeds (templates_stream tpl slots arrival).1 = 0.
Proof.
  destruct slots as [value|e]; simpl; [|done].
  rewrite proceeds_app, (proceeds_effects_only (λ w, res_write (text w))).
  by destruct (waiting _).
Qed.

(** What a module object inherits touches nothing and never calls
    [next()]. *)
Lemma Object_prototype_quiet (name : string) (h : exchange → guarded) :
  Object_prototype name = Some h → ∀ y, (h y).1 = [].
Proof.
  unfold Object_prototype.
  destruct (_ || _); [by intros [= <-]|].
  destruct (existsb _ _); [by intros [= <-]|].
  destruct (String.eqb _ _); [by intros [= <-]|done].
Qed.

Lemma handle_route_proceeds (route : Route.t) (x : exchange) :
  endpoints_proceed_at_most_once S →
  proceeds (handle_route S route x cache).1 ≤ 1.
Proof.
  intros Hends. unfold handle_route.
  destruct (require S (Server.entry (server cache))) as [bundle|e] eqn:Hreq;
    [|simpl; lia].
  destruct (Route.type route).
  - destruct (bundle !! Route.id route) as [m|]; [|simpl; lia].
    destruct (preload m) as [pre|].
    + destruct (pre _) as [settled|e]; [|simpl; lia].
      pose proof (templates_stream_quiet (stream_skeleton S)
        (slots_of (client cache)
           (preloaded_then S m
              (<["params" := params (req (set_params (Route.exec route (pathname (req x))) x))]>
                 (<["query" := query (req (set_params (Route.exec route (pathname (req x))) x))]> ∅))
              settled)) slot_order) as Hquiet.
      destruct (templates_stream _ _ _) as [acts err]. simpl in *. lia.
    + destruct (render m _); simpl; lia.
  - destruct (bundle !! Route.id route) as [m|] eqn:Hm; [|simpl; lia].
    unfold property_of.
    destruct (exports m !! _) as [h|] eqn:Hh.
    + pose proof (Hends _ _ _ _ _ _
                    (set_params (Route.exec route (pathname (req x))) x) Hreq Hm Hh).
      destruct (h _) as [acts err]. simpl in *. lia.
    + destruct (Object_prototype _) as [h|] eqn:Hp; [|simpl; lia].
      pose proof (Object_prototype_quiet _ _ Hp
                    (set_params (Route.exec route (pathname (req x))) x)) as Hq.
      destruct (h _) as [acts err]. simpl in *. subst acts. simpl. lia.
Qed.

(** The handlers of the production chain, one by one. *)
Lemma prod_handlers_polite :
  endpoints_proceed_at_most_once S →
  proceed_at_most_once (prod_handlers S cache).
Proof.
  intros Hends h x Hin. unfold prod_handlers in Hin.
  repeat (apply elem_of_cons in Hin as [->|Hin]).
  - simpl. lia.
  - unfold index_handler, get_asset_handler. simpl.
    destruct (String.eqb _ _); simpl; lia.
  - unfold service_worker_handler, get_asset_handler. simpl.
    destruct (String.eqb _ _); simpl; lia.
  - unfold chunk_handler, get_asset_handler. simpl.
    destruct (String.prefix _ _); simpl; lia.
  - unfold get_route_handler, find_route.
    destruct (first_match (routes S) (pathname (req x))) as [route|].
    + pose proof (handle_route_proceeds route
                    (setHeader "Content-Type" "text/html" x) Hends) as Hle.
      destruct (handle_route _ _ _ _) as [acts err]. simpl in *.
      rewrite proceeds_app. destruct err as [e|]; [rewrite on_error_quiet|]; simpl; lia.
    + simpl. lia.
  - simpl. lia.
  - by apply elem_of_nil in Hin.
Qed.

(** X18.  Every handler of the production chain calls [next()] at most once
    per request, whatever the request and whatever the page modules do, as
    long as the endpoint handlers of the site call it at most once. *)
Theorem prod_handlers_proceed_at_most_once :
  endpoints_proceed_at_most_once S →
  proceed_at_most_once (prod_handlers S cache).
Proof. exact prod_handlers_polite. Qed.

End ProdDiscipline.

(** * Further properties *)

(** ** [compose_handlers], for every list of handlers *)

Section ChainInvariants.

Context {X : Type}.
Implicit Types (hs : list (handler X)) (st : chain X) (acts : list (action X)).

(** The cursor and the log move together. *)
Lemma run_actions_balance (g : chain X → option (chain X)) k acts st st' :
  (∀ s s', g s = Some s' →
     cursor s' + count is_proceeded (log s) = cursor s + count is_proceeded (log s')) →
  run_actions g k acts st = Some st' →
  cursor st' + count is_proceeded (log st) = cursor st + count is_proceeded (log st').
Proof.
  intros Hg. revert st. induction acts as [|[f|] rest IH]; intros st; simpl.
  - by intros [= <-].
  - intros Hrun. by apply IH in Hrun.
  - destruct (g (advance k st)) as [s1|] eqn:Eg; [|done].
    intros Hrun. apply IH in Hrun. apply Hg in Eg. simpl in Eg.
    rewrite count_app in Eg. unfold count in Eg at 2. simpl in Eg. lia.
Qed.

Lemma go_balance hs fuel st st' :
  go fuel hs st = Some st' →
  cursor st' + count is_proceeded (log st) = cursor st + count is_proceeded (log st').
Proof.
  revert st st'. induction fuel as [|fuel IH]; intros st st'; [done|]. simpl.
  destruct (hs !! cursor st) as [h|].
  - intros Hrun. apply run_actions_balance in Hrun; [|exact IH].
    simpl in Hrun. rewrite count_app in Hrun. unfold count in Hrun at 2.
    simpl in Hrun. lia.
  - intros [= <-]. simpl. rewrite count_app. unfold count at 3. simpl. lia.
Qed.

(** X1.  Whatever the handlers do with [next()], also when they call it
    several times, the run of the composed handler comes to an end, and the
    cursor then stands at the number of [next()] calls made: one step per
    call. *)
Theorem compose_handlers_one_step_per_call hs (x : X) :
  ∃ st, compose_handlers hs x = Some st
    ∧ cursor st = count is_proceeded (log st).
Proof.
  destruct (compose_handlers_total hs x) as [st Hrun]. exists st.
  split; [done|]. apply go_balance in Hrun. simpl in Hrun.
  unfold count in Hrun at 1. simpl in Hrun. lia.
Qed.

Lemma started_app (l1 l2 : list event) : started (l1 ++ l2) = started l1 ++ started l2.
Proof.
  induction l1 as [|[k|k|] rest IH]; simpl; [done | by rewrite IH | done | done].
Qed.

Lemma run_actions_orderly (g : chain X → option (chain X)) k acts st st' :
  (∀ s s', orderly true s → g s = Some s' → orderly false s') →
  orderly false st →
  run_actions g k acts st = Some st' →
  orderly false st'.
Proof.
  intros Hg. revert st. induction acts as [|[f|] rest IH]; intros st Hst; simpl.
  - by intros [= <-].
  - intros Hrun. by apply IH in Hrun.
  - destruct (g (advance k st)) as [s1|] eqn:Eg; [|done].
    intros Hrun. apply IH in Hrun; [done|]. apply (Hg (advance k st)); [|done].
    destruct Hst as [Hnd Hall]. unfold orderly. simpl.
    rewrite started_app. simpl. rewrite app_nil_r. split; [done|].
    eapply Forall_impl; [exact Hall|]. simpl. lia.
Qed.

Lemma go_orderly hs fuel st st' :
  orderly true st → go fuel hs st = Some st' → orderly false st'.
Proof.
  revert st st'. induction fuel as [|fuel IH]; intros st st' Hst; [done|]. simpl.
  destruct Hst as [Hnd Hall].
  destruct (hs !! cursor st) as [h|].
  - intros Hrun. apply run_actions_orderly in Hrun; [done|exact IH|].
    unfold orderly. simpl. rewrite started_app. simpl. split.
    + apply NoDup_app. split_and!; [done| |apply NoDup_singleton].
      intros k Hk ->%list_elem_of_singleton.
      rewrite Forall_forall in Hall. specialize (Hall _ Hk). simpl in Hall. lia.
    + apply Forall_app. split; [|by apply Forall_singleton].
      eapply Forall_impl; [exact Hall|]. simpl. lia.
  - intros [= <-]. unfold orderly. simpl. rewrite started_app. simpl.
    rewrite app_nil_r. split; [done|].
    eapply Forall_impl; [exact Hall|]. simpl. lia.
Qed.

(** X2.  Whatever the handlers do with [next()], no handler is started twice
    in one run: the indices of the handlers started are pairwise distinct. *)
Theorem compose_handlers_starts_each_once hs (x : X) :
  ∃ st, compose_handlers hs x = Some st ∧ NoDup (started (log st)).
Proof.
  destruct (compose_handlers_total hs x) as [st Hrun]. exists st.
  split; [done|]. apply go_orderly in Hrun; [by destruct Hrun|].
  split; simpl; [apply NoDup_nil_2 | apply Forall_nil_2].
Qed.

End ChainInvariants.

(** ** [compose_handlers] on handlers that pass on *)

Section ChainThrough.

Context {X : Type}.
Implicit Types (hs : list (handler X)) (st : chain X) (acts : list (action X)).

Lemma effects_app acts1 acts2 (x : X) :
  effects (acts1 ++ acts2) x = effects acts2 (effects acts1 x).
Proof.
  revert x. induction acts1 as [|[f|] rest IH]; intros x; simpl; [done|apply IH..].
Qed.

(** A stretch of handlers that pass on is run through in order. *)
Lemma go_through (done front rest : list (handler X)) (x : X) (l : list event)
    (fuel : nat) :
  Forall passes_on front →
  go (length front + fuel) (done ++ front ++ rest) (Chain (length done) x l)
    = go fuel (done ++ front ++ rest)
        (Chain (length done + length front) (through front x)
           (l ++ relay (length done) (length done + length front))).
Proof.
  intros Hfront. revert done x l.
  induction Hfront as [|h front Hh Hfront IH]; intros done x l.
  - simpl. by rewrite Nat.add_0_r, relay_nil, app_nil_r.
  - destruct (Hh x) as (acts & Hacts & Hquiet).
    cbn [length Nat.add app].
    rewrite (go_pass _ _ _ h acts);
      [|by rewrite lookup_app_r, Nat.sub_diag|done|done].
    cbn [cursor payload log].
    specialize (IH (done ++ [h]) (effects acts x)
                  (l ++ [Started (length done); Proceeded (length done)])).
    rewrite <- app_assoc in IH. cbn [app] in IH.
    rewrite length_app in IH. cbn [length] in IH.
    replace (length done + 1) with (S (length done)) in IH by lia.
    rewrite IH. f_equal.
    replace (S (length done) + length front)
      with (length done + S (length front)) by lia.
    f_equal.
    + unfold through. cbn [foldl]. by rewrite Hacts, effects_app.
    + rewrite (relay_cons (length done)) by lia. by rewrite <- app_assoc.
Qed.

(** X3.  When every handler of the list passes on (it calls [next()] once,
    as its last act), the composed handler runs them all, first to last, each
    on what its predecessors made of the request and response, and then calls
    the outer [next] once.  For the empty list it calls the outer [next] at
    once. *)
Theorem compose_handlers_all_pass_on hs (x : X) :
  Forall passes_on hs →
  compose_handlers hs x
    = Some (Chain (length hs) (through hs x) (relay 0 (length hs) ++ [Fallback])).
Proof.
  intros Hpass. unfold compose_handlers.
  replace (S (length hs)) with (length hs + 1) by lia.
  pose proof (go_through [] hs [] x [] 1 Hpass) as Hgo.
  rewrite app_nil_r in Hgo. cbn [app length Nat.add] in Hgo. rewrite Hgo.
  cbn [go cursor]. by rewrite lookup_ge_None_2.
Qed.

(** X4.  When the handlers before some handler all pass on and that handler
    does not call [next()], the run ends with it: it works on what its
    predecessors made of the request and response, and no handler after it
    is started. *)
Theorem compose_handlers_stops_at (front back : list (handler X))
    (h : handler X) (x : X) :
  Forall passes_on front →
  proceeds (h (through front x)) = 0 →
  compose_handlers (front ++ h :: back) x
    = Some (Chain (length front)
              (effects (h (through front x)) (through front x))
              (relay 0 (length front) ++ [Started (length front)])).
Proof.
  intros Hpass Hquiet. unfold compose_handlers.
  rewrite length_app. cbn [length].
  replace (S (length front + S (length back)))
    with (length front + S (S (length back))) by lia.
  pose proof (go_through [] front (h :: back) x [] (S (S (length back))) Hpass) as Hgo.
  cbn [app length Nat.add] in Hgo. rewrite Hgo.
  rewrite (go_stop _ _ _ h); [done| |done].
  cbn [cursor]. by rewrite lookup_app_r, Nat.sub_diag.
Qed.

End ChainThrough.

Lemma set_req_pathname_passes_on : passes_on set_req_pathname.
Proof.
  intros x. by exists [Eff (λ x, set_pathname (Js.replace_query (url (req x))) x)].
Qed.

Lemma compose_handlers_all_pass_on_witness :
  Forall passes_on [set_req_pathname; set_req_pathname]
  ∧ compose_handlers [set_req_pathname; set_req_pathname] (Demo.get "/a?b=1")
    = Some (Chain 2 (set_pathname "/a" (Demo.get "/a?b=1"))
              [Started 0; Proceeded 0; Started 1; Proceeded 1; Fallback]).
Proof.
  assert (Hpass : Forall passes_on [set_req_pathname; set_req_pathname]).
  { repeat constructor; apply set_req_pathname_passes_on. }
  split; [exact Hpass|].
  exact (compose_handlers_all_pass_on [set_req_pathname; set_req_pathname]
           (Demo.get "/a?b=1") Hpass).
Defined.

Lemma compose_handlers_stops_at_witness :
  Forall passes_on [set_req_pathname]
  ∧ (∃ st, compose_handlers
             [set_req_pathname; handle_not_found Demo.site Demo.cache;
              index_handler Demo.cache] (Demo.get "/index.html") = Some st
       ∧ log st = [Started 0; Proceeded 0; Started 1]
       ∧ statusCode (res (payload st)) = 404).
Proof.
  assert (Hpass : Forall passes_on [set_req_pathname]).
  { repeat constructor; apply set_req_pathname_passes_on. }
  split; [exact Hpass|]. eexists. split.
  - exact (compose_handlers_stops_at [set_req_pathname] [index_handler Demo.cache]
             (handle_not_found Demo.site Demo.cache) (Demo.get "/index.html")
             Hpass eq_refl).
  - by split.
Defined.

(** ** [set_req_pathname], on every string *)

Lemma after_dots_length (s : string) :
  String.length (Js.after_dots s) ≤ String.length s.
Proof.
  induction s as [|c rest IH]; simpl; [done|].
  destruct (Js.is_line_terminator c); simpl; lia.
Qed.

Lemma replace_query_length (s : string) :
  String.length (Js.replace_query s) ≤ String.length s.
Proof.
  induction s as [|c rest IH]; [done|]. cbn [Js.replace_query].
  destruct (Ascii.eqb c "?"); [|simpl; lia].
  destruct rest as [|d rest']; [done|].
  destruct (Js.is_line_terminator d); [simpl in *; lia|].
  pose proof (after_dots_length rest'). simpl. lia.
Qed.

Lemma replace_query_no_question (s : string) :
  Js.index_of "?" s = None → Js.replace_query s = s.
Proof.
  induction s as [|c rest IH]; [done|]. cbn [Js.replace_query Js.index_of].
  destruct (Ascii.eqb c "?"); [done|].
  destruct (Js.index_of "?" rest); [done|]. intros _. by rewrite IH.
Qed.

(** X5.  On every string, line terminators or not: a URL without a question
    mark is its own pathname, the pathname is never longer than the URL, and
    [req.url] is left as it is. *)
Theorem set_req_pathname_never_grows (x : exchange) :
  let x' := effects (set_req_pathname x) x in
  String.length (pathname (req x')) ≤ String.length (url (req x))
  ∧ (Js.index_of "?" (url (req x)) = None → pathname (req x') = url (req x))
  ∧ url (req x') = url (req x).
Proof.
  cbn. split_and!; [apply replace_query_length | apply replace_query_no_question | done].
Qed.

Lemma set_req_pathname_never_grows_witness :
  Js.index_of "?" "/blog/first" = None
  ∧ pathname (req (effects (set_req_pathname (Demo.get "/blog/first"))
                     (Demo.get "/blog/first"))) = "/blog/first".
Proof.
  split; [reflexivity|].
  exact (proj1 (proj2 (set_req_pathname_never_grows (Demo.get "/blog/first"))) eq_refl).
Defined.

Lemma after_dots_line (q : string) (c : ascii) (r : string) :
  Js.single_line q = true →
  Js.is_line_terminator c = true →
  Js.after_dots (q +:+ String c r) = String c r.
Proof.
  intros Hq Hc. induction q as [|d q IH]; simpl.
  - by rewrite Hc.
  - simpl in Hq. apply andb_prop in Hq as [Hd Hq].
    apply negb_true_iff in Hd. rewrite Hd. by apply IH.
Qed.

(** X6.  The query is cut to the end of its line only: when the first
    question mark is followed by at least one character of the same line,
    what is removed ends at the next line terminator, and the terminator and
    all that follows it stay in the pathname. *)
Theorem replace_query_stops_at_line_end (p q r : string) (c : ascii) :
  Js.index_of "?" p = None →
  Js.single_line q = true →
  q ≠ EmptyString →
  Js.is_line_terminator c = true →
  Js.replace_query (p +:+ "?" +:+ q +:+ String c r) = p +:+ String c r.
Proof.
  intros Hp Hq Hne Hc. induction p as [|d p IH].
  - destruct q as [|e q]; [done|].
    cbn [Js.single_line] in Hq. apply andb_prop in Hq as [He Hq].
    apply negb_true_iff in He.
    change ((if Js.is_line_terminator e
             then String "?" (Js.replace_query (String e (q +:+ String c r)))
             else Js.after_dots (q +:+ String c r)) = String c r).
    rewrite He. by apply after_dots_line.
  - cbn [Js.index_of] in Hp.
    change (Js.replace_query (String d (p +:+ "?" +:+ q +:+ String c r))
            = String d (p +:+ String c r)).
    cbn [Js.replace_query].
    destruct (Ascii.eqb d "?"); [done|].
    destruct (Js.index_of "?" p); [done|]. by rewrite IH.
Qed.

Lemma replace_query_stops_at_line_end_witness :
  Js.replace_query ("/a?b=1" +:+ String Js.LF "c?d=2") = "/a" +:+ String Js.LF "c?d=2".
Proof.
  exact (replace_query_stops_at_line_end "/a" "b=1" "c?d=2" Js.LF
           eq_refl eq_refl ltac:(discriminate) eq_refl).
Defined.

Lemma index_of_before (c : ascii) (s : string) (i : nat) :
  Js.index_of c s = Some i → Js.index_of c (substring 0 i s) = None.
Proof.
  revert i. induction s as [|d rest IH]; intros i; simpl; [done|].
  destruct (Ascii.eqb d c) eqn:Ed.
  - by intros [= <-].
  - destruct (Js.index_of c rest) as [j|]; simpl; [|done].
    intros [= <-]. simpl. by rewrite Ed, (IH j).
Qed.

(** X7.  On a request URL (no line terminator) the pathname holds no
    question mark, except for the one case in which nothing is cut: the URL
    ends in its only question mark. *)
Theorem pathname_question_only_trailing (x : exchange) (i : nat) :
  Js.single_line (url (req x)) = true →
  let p := pathname (req (effects (set_req_pathname x) x)) in
  Js.index_of "?" p = Some i →
  p = url (req x) ∧ S i = String.length p.
Proof.
  intros Hline p. subst p. cbn.
  rewrite (replace_query_single_line _ Hline).
  destruct (Js.index_of "?" (url (req x))) as [j|] eqn:Ej.
  - destruct (Nat.ltb_spec (S j) (String.length (url (req x)))) as [Hlt|Hge].
    + by rewrite (index_of_before _ _ _ Ej).
    + rewrite Ej. intros [= <-]. split; [done|].
      pose proof (index_of_bound _ _ _ Ej). lia.
  - by rewrite Ej.
Qed.

Lemma pathname_question_only_trailing_witness :
  Js.single_line "/search?" = true
  ∧ pathname (req (effects (set_req_pathname (Demo.get "/search?")) (Demo.get "/search?")))
    = "/search?".
Proof.
  split; [reflexivity|].
  exact (proj1 (pathname_question_only_trailing (Demo.get "/search?") 7 eq_refl eq_refl)).
Defined.

(** ** The asset handlers in the production chain *)

Section AssetChain.

Variable S : site.
Variable cache : asset_cache.

Lemma connect_prod_index (x : exchange) :
  Js.replace_query (url (req x)) = "/index.html" →
  connect_prod S cache x =
    Some (Chain 1
            (res_end (Some (Client.index (client cache)))
               (setHeader "Cache-Control" "max-age=600"
                  (setHeader "Content-Type" "text/html"
                     (set_pathname "/index.html" x))))
            (reached 1)).
Proof.
  intros Hp. unfold connect_prod, compose_handlers.
  set (hs := prod_handlers S cache). change (length hs) with 6.
  rewrite (go_pass hs _ _ set_req_pathname
             [Eff (λ x, set_pathname (Js.replace_query (url (req x))) x)]);
    [|done..].
  rewrite (go_stop hs _ _ (index_handler cache)); [|done|];
    unfold index_handler, get_asset_handler; simpl; by rewrite Hp.
Qed.

Lemma connect_prod_service_worker (x : exchange) :
  Js.replace_query (url (req x)) = "/service-worker.js" →
  connect_prod S cache x =
    Some (Chain 2
            (res_end (Some (Client.service_worker (client cache)))
               (setHeader "Cache-Control" "max-age=600"
                  (setHeader "Content-Type" "application/javascript"
                     (set_pathname "/service-worker.js" x))))
            (reached 2)).
Proof.
  intros Hp. unfold connect_prod, compose_handlers.
  set (hs := prod_handlers S cache). change (length hs) with 6.
  rewrite (go_pass hs _ _ set_req_pathname
             [Eff (λ x, set_pathname (Js.replace_query (url (req x))) x)]);
    [|done..].
  rewrite (go_pass hs _ _ (index_handler cache) []);
    [|done|apply index_handler_pass; simpl; by rewrite Hp|done].
  rewrite (go_stop hs _ _ (service_worker_handler cache)); [|done|];
    unfold service_worker_handler, get_asset_handler; simpl; by rewrite Hp.
Qed.

(** X8.  The root document and the service worker are served before any
    route is looked at, whatever the query string and whatever the route
    table holds: a request whose pathname is [/index.html] ends in the first
    asset handler with the cached document, Content-Type text/html and
    Cache-Control max-age=600; one whose pathname is [/service-worker.js]
    ends in the second with the cached script, Content-Type
    application/javascript and Cache-Control max-age=600.  The status is
    left as it was and the route dispatcher is never started. *)
Theorem fixed_assets_come_before_routes (x : exchange) :
  let p := Js.replace_query (url (req x)) in
  (p = "/index.html" →
   ∃ st, connect_prod S cache x = Some st
     ∧ log st = reached 1
     ∧ body (res (payload st)) = body (res x) ++ [Client.index (client cache)]
     ∧ headers (res (payload st)) !! "Content-Type" = Some "text/html"
     ∧ headers (res (payload st)) !! "Cache-Control" = Some "max-age=600"
     ∧ statusCode (res (payload st)) = statusCode (res x)
     ∧ ended (res (payload st)) = true)
  ∧ (p = "/service-worker.js" →
     ∃ st, connect_prod S cache x = Some st
       ∧ log st = reached 2
       ∧ body (res (payload st)) = body (res x) ++ [Client.service_worker (client cache)]
       ∧ headers (res (payload st)) !! "Content-Type" = Some "application/javascript"
       ∧ headers (res (payload st)) !! "Cache-Control" = Some "max-age=600"
       ∧ statusCode (res (payload st)) = statusCode (res x)
       ∧ ended (res (payload st)) = true).
Proof.
  intros p. split; intros Hp; eexists.
  - split; [by apply connect_prod_index|]. simpl. split_and!; try done.
    + by rewrite lookup_insert_ne, lookup_insert_eq.
    + by rewrite lookup_insert_eq.
  - split; [by apply connect_prod_service_worker|]. simpl. split_and!; try done.
    + by rewrite lookup_insert_ne, lookup_insert_eq.
    + by rewrite lookup_insert_eq.
Qed.

Lemma client_prefix_not_fixed (p : string) :
  String.prefix "/client/" p = true →
  String.eqb p "/index.html" = false ∧ String.eqb p "/service-worker.js" = false.
Proof.
  intros Hp. split.
  - destruct (String.eqb_spec p "/index.html") as [->|]; [done|done].
  - destruct (String.eqb_spec p "/service-worker.js") as [->|]; [done|done].
Qed.

(** X9.  Every request whose pathname starts with [/client/] ends in the
    chunk handler, whether the asset cache holds the path or not: the
    response is ended with Content-Type application/javascript and
    Cache-Control max-age=31536000, its body is the cached chunk when there
    is one and nothing otherwise, the status is left as it was, and neither
    the route dispatcher nor the not-found handler is started. *)
Theorem client_paths_end_in_chunk_handler (x : exchange) :
  let p := Js.replace_query (url (req x)) in
  String.prefix "/client/" p = true →
  ∃ st, connect_prod S cache x = Some st
    ∧ log st = reached 3
    ∧ body (res (payload st)) =
        body (res x) ++ match Client.chunks (client cache) !! p with
                        | Some bytes => [bytes]
                        | None => []
                        end
    ∧ headers (res (payload st)) !! "Content-Type" = Some "application/javascript"
    ∧ headers (res (payload st)) !! "Cache-Control" = Some "max-age=31536000"
    ∧ statusCode (res (payload st)) = statusCode (res x)
    ∧ ended (res (payload st)) = true.
Proof.
  intros p Hp. destruct (client_prefix_not_fixed p Hp) as [Hindex Hsw].
  eexists. split; [by apply connect_prod_chunk|]. simpl. split_and!; try done.
  - by rewrite lookup_insert_ne, lookup_insert_eq.
  - by rewrite lookup_insert_eq.
Qed.

(** A request that reaches the route handler, whose script does not call
    [next()], ends there. *)
Lemma connect_prod_route_stop (x : exchange) :
  let p := Js.replace_query (url (req x)) in
  String.eqb p "/index.html" = false →
  String.eqb p "/service-worker.js" = false →
  String.prefix "/client/" p = false →
  proceeds (find_route S cache (set_pathname p x)) = 0 →
  connect_prod S cache x =
    Some (Chain 4
            (effects (find_route S cache (set_pathname p x)) (set_pathname p x))
            (reached 4)).
Proof.
  intros p Hindex Hsw Hchunk Hquiet.
  rewrite connect_prod_route by done. fold p.
  by rewrite (go_stop (prod_handlers S cache) _ _ (get_route_handler S cache)).
Qed.

End AssetChain.

Lemma fixed_assets_come_before_routes_witness :
  (∃ st, connect_prod Demo.site Demo.cache (Demo.get "/index.html?v=2") = Some st
     ∧ body (res (payload st)) = ["<!doctype html>"])
  ∧ (∃ st, connect_prod Demo.site Demo.cache (Demo.get "/service-worker.js") = Some st
       ∧ body (res (payload st)) = ["self.skipWaiting()"]).
Proof.
  split.
  - destruct (proj1 (fixed_assets_come_before_routes Demo.site Demo.cache
                       (Demo.get "/index.html?v=2")) eq_refl)
      as (st & Hrun & _ & Hbody & _).
    exists st. by split.
  - destruct (proj2 (fixed_assets_come_before_routes Demo.site Demo.cache
                       (Demo.get "/service-worker.js")) eq_refl)
      as (st & Hrun & _ & Hbody & _).
    exists st. by split.
Defined.

Lemma client_paths_end_in_chunk_handler_witness :
  String.prefix "/client/" "/client/other.js" = true
  ∧ ∃ st, connect_prod Demo.site Demo.cache (Demo.get "/client/other.js?x") = Some st
      ∧ log st = reached 3
      ∧ body (res (payload st)) = [].
Proof.
  split; [reflexivity|].
  destruct (client_paths_end_in_chunk_handler Demo.site Demo.cache
              (Demo.get "/client/other.js?x") eq_refl)
    as (st & Hrun & Hlog & Hbody & _).
  exists st. by split_and!.
Defined.

(** ** Pages in the production chain *)

Section PageChain.

Variable S : site.
Variable cache : asset_cache.

Lemma effects_writes (ws : list written) (y : exchange) :
  effects (map (λ w, Eff (res_write (text w))) ws) y
    = Exchange (req y)
        (Response (statusCode (res y)) (headers (res y))
           (body (res y) ++ map text ws) (ended (res y))).
Proof.
  revert y. induction ws as [|w ws IH]; intros y; simpl.
  - rewrite app_nil_r. by destruct y as [q []].
  - rewrite IH. simpl. by rewrite <- app_assoc.
Qed.

(** The script of [find_route] for a page without [preload]. *)
Lemma find_route_plain_page (y : exchange) (route : Route.t)
    (bundle : gmap string server_module) (m : server_module) :
  first_match (routes S) (pathname (req y)) = Some route →
  Route.type route = Route.page →
  require S (Server.entry (server cache)) = Returns bundle →
  bundle !! Route.id route = Some m →
  preload m = None →
  find_route S cache y =
    [ Eff (setHeader "Content-Type" "text/html");
      Eff (λ x, set_params (Route.exec route (pathname (req x))) x);
      Eff (setHeader "Link" (preload_link (client cache) (Route.id route))) ]
    ++ match render m (<["params" := Route.exec route (pathname (req y))]>
                         (<["query" := query (req y)]> ∅)) with
       | Returns r =>
           [Eff (res_end (Some (templates_render S 200
                   (PageProps (main_script (client cache)) (Rendered.html r)
                      (head_markup (Rendered.head r))
                      (styles_markup (Rendered.css r))))))]
       | Throws e => on_error S (pathname (req y)) e
       end.
Proof.
  intros Hfirst Htype Hrequire Hm Hpre. unfold find_route. rewrite Hfirst.
  unfold handle_route. rewrite Hrequire, Htype, Hm, Hpre.
  cbn [params query req set_params setHeader pathname].
  by destruct (render m _).
Qed.

(** X10.  A page without [preload] is rendered in one piece: when the asset
    handlers pass the request on, the first matching route is a page whose
    module has no [preload], and [render] returns, the response is ended with
    a single body chunk, the 200 template filled with the entry script tag,
    the rendered html, the head between its two markers and the style block.
    Content-Type is text/html, the Link header advertises the entry script
    and the route's bundle, the status is left as it was, [req.params] holds
    what the route extracted, and [render] was given exactly [params] and
    [query]. *)
Theorem plain_page_is_rendered_once (x : exchange) (route : Route.t)
    (bundle : gmap string server_module) (m : server_module) (r : Rendered.t) :
  let p := Js.replace_query (url (req x)) in
  String.eqb p "/index.html" = false →
  String.eqb p "/service-worker.js" = false →
  String.prefix "/client/" p = false →
  first_match (routes S) p = Some route →
  Route.type route = Route.page →
  require S (Server.entry (server cache)) = Returns bundle →
  bundle !! Route.id route = Some m →
  preload m = None →
  render m (<["params" := Route.exec route p]> (<["query" := query (req x)]> ∅))
    = Returns r →
  ∃ st, connect_prod S cache x = Some st
    ∧ log st = reached 4
    ∧ body (res (payload st)) =
        body (res x)
          ++ [templates_render S 200
                (PageProps (main_script (client cache)) (Rendered.html r)
                   (head_markup (Rendered.head r)) (styles_markup (Rendered.css r)))]
    ∧ headers (res (payload st)) !! "Content-Type" = Some "text/html"
    ∧ headers (res (payload st)) !! "Link"
        = Some (preload_link (client cache) (Route.id route))
    ∧ statusCode (res (payload st)) = statusCode (res x)
    ∧ ended (res (payload st)) = true
    ∧ params (req (payload st)) = Route.exec route p.
Proof.
  intros p Hindex Hsw Hchunk Hfirst Htype Hrequire Hm Hpre Hrender.
  pose proof (find_route_plain_page (set_pathname p x) route bundle m
                Hfirst Htype Hrequire Hm Hpre) as Hscript.
  cbn [pathname query req set_pathname] in Hscript. rewrite Hrender in Hscript.
  eexists. split.
  - apply connect_prod_route_stop; try done. fold p. by rewrite Hscript.
  - fold p. rewrite Hscript. simpl. split_and!; try done.
    + by rewrite lookup_insert_ne, lookup_insert_eq.
    + by rewrite lookup_insert_eq.
Qed.

(** X11.  When [render] of a page without [preload] throws a value that
    carries a stack (or a falsy value), the response is the error page and
    nothing else: status 500, one body chunk rendered from the 500 template
    with the title, the pathname, the escaped detail and the stack without
    its first line; Content-Type text/html and the Link header stay set. *)
Theorem plain_page_failure_gets_error_page (x : exchange) (route : Route.t)
    (bundle : gmap string server_module) (m : server_module)
    (e : thrown) (stack : stack_prop) :
  let p := Js.replace_query (url (req x)) in
  String.eqb p "/index.html" = false →
  String.eqb p "/service-worker.js" = false →
  String.prefix "/client/" p = false →
  first_match (routes S) p = Some route →
  Route.type route = Route.page →
  require S (Server.entry (server cache)) = Returns bundle →
  bundle !! Route.id route = Some m →
  preload m = None →
  render m (<["params" := Route.exec route p]> (<["query" := query (req x)]> ∅))
    = Throws e →
  error_stack e = Returns stack →
  ∃ st, connect_prod S cache x = Some st
    ∧ log st = reached 4
    ∧ statusCode (res (payload st)) = 500
    ∧ body (res (payload st)) =
        body (res x)
          ++ [templates_render S 500
                (ErrorProps (error_title e) p (escape_html S (error_detail e)) stack)]
    ∧ headers (res (payload st)) !! "Content-Type" = Some "text/html"
    ∧ headers (res (payload st)) !! "Link"
        = Some (preload_link (client cache) (Route.id route))
    ∧ ended (res (payload st)) = true.
Proof.
  intros p Hindex Hsw Hchunk Hfirst Htype Hrequire Hm Hpre Hrender Hstack.
  pose proof (find_route_plain_page (set_pathname p x) route bundle m
                Hfirst Htype Hrequire Hm Hpre) as Hscript.
  cbn [pathname query req set_pathname] in Hscript. rewrite Hrender in Hscript.
  unfold on_error in Hscript. rewrite Hstack in Hscript.
  eexists. split.
  - apply connect_prod_route_stop; try done. fold p. by rewrite Hscript.
  - fold p. rewrite Hscript. simpl. split_and!; try done.
    + by rewrite lookup_insert_ne, lookup_insert_eq.
    + by rewrite lookup_insert_eq.
Qed.

End PageChain.

Lemma plain_page_is_rendered_once_witness :
  ∃ st, connect_prod Demo.site Demo.cache (Demo.get "/about?ref=home") = Some st
    ∧ body (res (payload st)) =
        ["<head><noscript id='sapper-head-start'></noscript><noscript id='sapper-head-end'></noscript></head><body><p>About</p><script src='/client/main.js'></script></body>"]
    ∧ statusCode (res (payload st)) = 200.
Proof.
  destruct (plain_page_is_rendered_once Demo.site Demo.cache
              (Demo.get "/about?ref=home")
              (Route.Make "about" Route.page (λ p, String.eqb p "/about") Demo.no_params)
              Demo.bundle Demo.about
              (Rendered.Make "<p>About</p>" EmptyString None)
              eq_refl eq_refl eq_refl eq_refl eq_refl eq_refl eq_refl eq_refl eq_refl)
    as (st & Hrun & _ & Hbody & _ & _ & Hstatus & _).
  exists st. by split_and!.
Defined.

Lemma plain_page_failure_gets_error_page_witness :
  ∃ st, connect_prod Demo.site Demo.cache (Demo.get "/fail") = Some st
    ∧ statusCode (res (payload st)) = 500
    ∧ body (res (payload st)) =
        ["<h1>Error</h1><p>/fail</p><pre>a &lt; b</pre><pre>    at render (fail.js:3:9)</pre>"].
Proof.
  destruct (plain_page_failure_gets_error_page Demo.site Demo.cache
              (Demo.get "/fail")
              (Route.Make "fail" Route.page (λ p, String.eqb p "/fail") Demo.no_params)
              Demo.bundle Demo.fail _ (StackText "    at render (fail.js:3:9)")
              eq_refl eq_refl eq_refl eq_refl eq_refl eq_refl eq_refl eq_refl
              eq_refl eq_refl)
    as (st & Hrun & _ & Hstatus & Hbody & _).
  exists st. by split_and!.
Defined.

(** ** Pages with [preload] in the production chain *)

Section PreloadChain.

Variable S : site.
Variable cache : asset_cache.

(** X12.  A page with [preload] whose preloaded data arrives and whose
    [render] returns is streamed whole: [preload] is called with the request
    carrying the pathname and the extracted [params]; [render] is given the
    preloaded data laid over [params] and [query], so that a preloaded key of
    the same name wins; the body is the document of the stream template with
    the scripts slot built from what [try_serialize] gave for the preloaded
    data alone, the rendered html, the head between its markers and the style
    block; the response is ended, the status left as it was, Content-Type is
    text/html and the Link header is set.  ([templates.stream] is the model
    given for templates.js.) *)
Theorem preload_page_is_streamed (x : exchange) (route : Route.t)
    (bundle : gmap string server_module) (m : server_module)
    (pre : request → outcome (outcome (gmap string js_value)))
    (preloaded : gmap string js_value) (r : Rendered.t) :
  let p := Js.replace_query (url (req x)) in
  String.eqb p "/index.html" = false →
  String.eqb p "/service-worker.js" = false →
  String.prefix "/client/" p = false →
  first_match (routes S) p = Some route →
  Route.type route = Route.page →
  require S (Server.entry (server cache)) = Returns bundle →
  bundle !! Route.id route = Some m →
  preload m = Some pre →
  pre (Request (url (req x)) (method (req x)) p (Route.exec route p) (query (req x)))
    = Returns (Returns preloaded) →
  render m (preloaded ∪ <["params" := Route.exec route p]> (<["query" := query (req x)]> ∅))
    = Returns r →
  ∃ st, connect_prod S cache x = Some st
    ∧ log st = reached 4
    ∧ body (res (payload st)) =
        body (res x)
          ++ map text (document (stream_skeleton S)
                         (slot_value (client cache) (r, try_serialize S preloaded)))
    ∧ headers (res (payload st)) !! "Content-Type" = Some "text/html"
    ∧ headers (res (payload st)) !! "Link"
        = Some (preload_link (client cache) (Route.id route))
    ∧ statusCode (res (payload st)) = statusCode (res x)
    ∧ ended (res (payload st)) = true.
Proof.
  intros p Hindex Hsw Hchunk Hfirst Htype Hrequire Hm Hpre Hsettled Hrender.
  set (value := slot_value (client cache) (r, try_serialize S preloaded)).
  assert (Hscript :
    find_route S cache (set_pathname p x) =
      [ Eff (setHeader "Content-Type" "text/html");
        Eff (λ y, set_params (Route.exec route (pathname (req y))) y);
        Eff (setHeader "Link" (preload_link (client cache) (Route.id route))) ]
      ++ map (λ w, Eff (res_write (text w))) (document (stream_skeleton S) value)
      ++ [Eff (res_end None)]).
  { unfold find_route. cbn [pathname req set_pathname]. rewrite Hfirst.
    unfold handle_route. rewrite Hrequire, Htype, Hm, Hpre.
    cbn [params query req set_params setHeader pathname url method set_pathname].
    rewrite Hsettled. unfold preloaded_then. rewrite Hrender.
    cbn [slots_of templates_stream]. fold value.
    destruct (run_complete (stream_skeleton S) value slot_order (reflexivity _))
      as [Hwaiting Houtput].
    rewrite Hwaiting, Houtput. cbn [app]. by rewrite app_nil_r. }
  eexists. split.
  - apply connect_prod_route_stop; try done. fold p. rewrite Hscript.
    rewrite proceeds_app. cbn [proceeds].
    rewrite proceeds_app, (proceeds_effects_only (λ w, res_write (text w))).
    done.
  - fold p. rewrite Hscript. rewrite effects_app.
    rewrite effects_app, effects_writes. simpl. split_and!; try done.
    + by rewrite app_nil_r.
    + by rewrite lookup_insert_ne, lookup_insert_eq.
    + by rewrite lookup_insert_eq.
Qed.

End PreloadChain.

Lemma preload_page_is_streamed_witness :
  ∃ st, connect_prod Demo.site Demo.cache (Demo.get "/blog/hello") = Some st
    ∧ body (res (payload st)) =
        [ "<body>";
          "<script>__SAPPER__ = { preloaded: {title:1} };</script><script src='/client/main.js'></script>";
          "<main>"; "<h1>Hello</h1>"; "</main><aside>";
          "<noscript id='sapper-head-start'></noscript><title>Blog</title><noscript id='sapper-head-end'></noscript>";
          "</aside>"; "<style>h1{color:red}</style>"; "</body>" ].
Proof.
  destruct (preload_page_is_streamed Demo.site Demo.cache (Demo.get "/blog/hello")
              (Route.Make "blog_slug" Route.page (λ p, String.prefix "/blog/" p)
                 (λ p, JDict (<["slug" := substring 6 (String.length p) p]> ∅)))
              Demo.bundle Demo.blog _ (Demo.post_data "Hello")
              (Rendered.Make "<h1>Hello</h1>" "<title>Blog</title>"
                 (Some (Rendered.Css "h1{color:red}")))
              eq_refl eq_refl eq_refl eq_refl eq_refl eq_refl eq_refl eq_refl
              eq_refl eq_refl)
    as (st & Hrun & _ & Hbody & _).
  exists st. by split.
Defined.

(** ** The error page, for every thrown value *)

(** X13.  A falsy thrown value ([undefined], [null], the empty string) gets
    the error page with the fallback texts: status 500, title
    [Internal server error], the escaped text [Unknown error], and the thrown
    value itself in place of a stack; the response is ended. *)
Theorem falsy_error_gets_fallback_page (S : site) (u : string) (e : thrown)
    (x : exchange) :
  truthy e = false →
  let x' := effects (on_error S u e) x in
  statusCode (res x') = 500
  ∧ body (res x') =
      body (res x)
        ++ [templates_render S 500
              (ErrorProps "Internal server error" u
                 (escape_html S "Unknown error") (StackValue e))]
  ∧ ended (res x') = true
  ∧ headers (res x') = headers (res x).
Proof.
  intros Hfalsy. unfold on_error, error_stack, error_title, error_detail.
  by rewrite Hfalsy.
Qed.

Lemma falsy_error_gets_fallback_page_witness :
  truthy ThrownNull = false
  ∧ body (res (effects (on_error Demo.site "/x" ThrownNull) (Demo.get "/x")))
    = ["<h1>Internal server error</h1><p>/x</p><pre>Unknown error</pre><pre>null</pre>"].
Proof.
  split; [reflexivity|].
  exact (proj1 (proj2 (falsy_error_gets_fallback_page Demo.site "/x" ThrownNull
                         (Demo.get "/x") eq_refl))).
Defined.

Lemma error_stack_drops_first_line_witness :
  error_stack
      (ThrownObject
         (ErrorObject (Some "Error") None (Some "a < b")
            (Some ("Error: a < b" +:+ Js.newline +:+ "    at render (fail.js:3:9)"))
            "Error: a < b"))
    = Returns (StackText "    at render (fail.js:3:9)").
Proof.
  exact (error_stack_drops_first_line
           (ErrorObject (Some "Error") None (Some "a < b")
              (Some ("Error: a < b" +:+ Js.newline +:+ "    at render (fail.js:3:9)"))
              "Error: a < b")
           "Error: a < b" "    at render (fail.js:3:9)" eq_refl eq_refl).
Defined.

Lemma on_error_without_stack_witness :
  truthy (ThrownText "boom") = true
  ∧ on_error Demo.site "/crash" (ThrownText "boom") = [Eff (set_statusCode 500)].
Proof.
  split; [reflexivity|].
  exact (on_error_without_stack Demo.site "/crash" (ThrownText "boom") eq_refl I).
Defined.

(** ** The production chain never hands the request back *)

Section ChainInside.

Context {X : Type}.
Implicit Types (hs : list (handler X)) (st : chain X).

(** When the last handler never calls [next()] and the others call it at
    most once, the cursor stays inside the list. *)
Lemma go_stays_inside hs fuel st st' :
  proceed_at_most_once hs →
  (∀ h x, last hs = Some h → proceeds (h x) = 0) →
  cursor st < length hs →
  go fuel hs st = Some st' →
  cursor st' < length hs.
Proof.
  intros Hpol Hlast. revert st st'.
  induction fuel as [|fuel IH]; intros st st' Hc; [done|]. simpl.
  destruct (hs !! cursor st) as [h|] eqn:Eh.
  - intros Hrun. apply run_actions_once in Hrun;
      [|by eapply Hpol, list_elem_of_lookup_2].
    destruct Hrun as [(_ & Hcur & _)|(Hone & st0 & st1 & Hc0 & _ & Hg & Hc1 & _)].
    + simpl in Hcur. by rewrite Hcur.
    + rewrite Hc1. refine (IH _ _ _ Hg). simpl. rewrite Hc0. simpl.
      unfold handler in *.
      destruct (decide (S (cursor st) = length hs)) as [Hend|]; [|lia].
      rewrite (Hlast h (payload st)) in Hone; [done|].
      rewrite last_lookup, <- Hend. exact Eh.
  - apply lookup_ge_None in Eh. unfold handler in *. lia.
Qed.

End ChainInside.

Section ProdInside.

Variable S : site.
Variable cache : asset_cache.

(** X14.  As long as the endpoint handlers of the site call [next()] at
    most once, the production middleware never calls the [next] it was
    given: every request ends inside the chain, at the latest in the
    not-found handler. *)
Theorem connect_prod_never_falls_back (x : exchange) :
  endpoints_proceed_at_most_once S →
  ∃ st, connect_prod S cache x = Some st
    ∧ count is_fallback (log st) = 0
    ∧ cursor st ≤ 5.
Proof.
  intros Hends.
  pose proof (prod_handlers_polite S cache Hends) as Hpol.
  destruct (compose_handlers_total (prod_handlers S cache) x) as [st Hrun].
  exists st. split; [done|].
  assert (Hin : cursor st < 6).
  { apply (go_stays_inside (prod_handlers S cache) _ _ _ Hpol) in Hrun; [done| |simpl; lia].
    intros h y [= <-]. done. }
  apply go_relay in Hrun; [|done|simpl; lia].
  destruct Hrun as [_ Hlog]. simpl in Hlog. rewrite Hlog.
  destruct (relay_shape (cursor st)) as (_ & _ & _ & Hf).
  rewrite count_app, Hf. unfold closing. change (length (prod_handlers S cache)) with 6.
  destruct (Nat.ltb_spec (cursor st) 6); [|lia]. split; [done | lia].
Qed.

End ProdInside.

(** The endpoint handlers of the small site never call [next()]. *)
Lemma demo_endpoints_proceed_at_most_once : endpoints_proceed_at_most_once Demo.site.
Proof.
  intros entry bundle id m name h y Hreq Hm Hh. simpl in Hreq.
  destruct (String.eqb entry "server/main.js"); [|done].
  injection Hreq as <-. unfold Demo.bundle in Hm.
  apply lookup_insert_Some in Hm as [[_ <-]|[_ Hm]];
    [by (cbv [Demo.about Demo.blog Demo.crash Demo.fail] in Hh;
         cbn [exports] in Hh; rewrite lookup_empty in Hh)|].
  apply lookup_insert_Some in Hm as [[_ <-]|[_ Hm]];
    [by (cbv [Demo.about Demo.blog Demo.crash Demo.fail] in Hh;
         cbn [exports] in Hh; rewrite lookup_empty in Hh)|].
  apply lookup_insert_Some in Hm as [[_ <-]|[_ Hm]];
    [by (cbv [Demo.about Demo.blog Demo.crash Demo.fail] in Hh;
         cbn [exports] in Hh; rewrite lookup_empty in Hh)|].
  apply lookup_insert_Some in Hm as [[_ <-]|[_ Hm]];
    [by (cbv [Demo.about Demo.blog Demo.crash Demo.fail] in Hh;
         cbn [exports] in Hh; rewrite lookup_empty in Hh)|].
  apply lookup_insert_Some in Hm as [[_ <-]|[_ Hm]]; [|by rewrite lookup_empty in Hm].
  cbn [exports Demo.items] in Hh.
  apply lookup_insert_Some in Hh as [[_ <-]|[_ Hh]]; [simpl; lia|].
  apply lookup_insert_Some in Hh as [[_ <-]|[_ Hh]]; [simpl; lia|].
  by rewrite lookup_empty in Hh.
Qed.

Lemma connect_prod_never_falls_back_witness :
  endpoints_proceed_at_most_once Demo.site
  ∧ ∃ st, connect_prod Demo.site Demo.cache (incoming "PUT" "/api/items" JUndefined)
            = Some st
      ∧ count is_fallback (log st) = 0.
Proof.
  split; [exact demo_endpoints_proceed_at_most_once|].
  destruct (connect_prod_never_falls_back Demo.site Demo.cache
              (incoming "PUT" "/api/items" JUndefined)
              demo_endpoints_proceed_at_most_once) as (st & Hrun & Hcount & _).
  exists st. by split.
Defined.

Lemma prod_handlers_proceed_at_most_once_witness :
  endpoints_proceed_at_most_once Demo.site
  ∧ proceed_at_most_once (prod_handlers Demo.site Demo.cache).
Proof.
  split; [exact demo_endpoints_proceed_at_most_once|].
  exact (prod_handlers_proceed_at_most_once Demo.site Demo.cache
           demo_endpoints_proceed_at_most_once).
Defined.

(** ** Whatever happens, the route dispatcher serves HTML *)

Section ServesHtml.

Variable S : site.
Variable cache : asset_cache.

Lemma on_error_keeps_headers (u : string) (e : thrown) (y : exchange) :
  headers (res (effects (on_error S u e) y)) = headers (res y).
Proof. unfold on_error. by destruct (error_stack e). Qed.

Lemma templates_stream_keeps_headers (tpl : skeleton)
    (slots : outcome (slot → string)) (arrival : list slot) (y : exchange) :
  headers (res (effects (templates_stream tpl slots arrival).1 y)) = headers (res y).
Proof.
  destruct slots as [value|e]; simpl; [|done].
  rewrite effects_app, effects_writes. by destruct (waiting _).
Qed.

(** A page touches no header but [Link]. *)
Lemma page_script_headers (route : Route.t) (y : exchange) (name : string) :
  Route.type route = Route.page →
  name ≠ "Link" →
  headers (res (effects
     ((handle_route S route y cache).1
        ++ match (handle_route S route y cache).2 with
           | Some e => on_error S (pathname (req y)) e
           | None => []
           end) y)) !! name
  = headers (res y) !! name.
Proof.
  intros Htype Hname.
  assert (Hframe : ∀ (f : exchange → exchange) (rest : list (action exchange)) z,
    effects (Eff f :: rest) z = effects rest (f z)) by done.
  unfold handle_route. rewrite Htype.
  destruct (require S _) as [bundle|e]; cbn [fst snd app].
  2: { by rewrite Hframe, on_error_keeps_headers. }
  destruct (bundle !! Route.id route) as [m|]; cbn [fst snd app].
  2: { rewrite !Hframe, on_error_keeps_headers. cbn [headers res set_params setHeader].
       by rewrite lookup_insert_ne. }
  destruct (preload m) as [pre|].
  - destruct (pre _) as [settled|e]; cbn [fst snd app].
    2: { rewrite !Hframe, on_error_keeps_headers.
         cbn [headers res set_params setHeader]. by rewrite lookup_insert_ne. }
    match goal with
    | |- context [templates_stream ?tpl ?slots ?arr] =>
        pose proof (λ z, templates_stream_keeps_headers tpl slots arr z) as Hkeep;
        destruct (templates_stream tpl slots arr) as [acts err]
    end.
    cbn [fst snd app] in *. rewrite !Hframe, effects_app.
    destruct err as [e|]; [rewrite on_error_keeps_headers|cbn [effects]];
      rewrite Hkeep; cbn [headers res set_params setHeader];
      by rewrite lookup_insert_ne.
  - destruct (render m _) as [r|e]; cbn [fst snd app].
    + rewrite !Hframe. cbn [effects headers res set_params setHeader res_end].
      by rewrite lookup_insert_ne.
    + rewrite !Hframe, on_error_keeps_headers.
      cbn [headers res set_params setHeader]. by rewrite lookup_insert_ne.
Qed.

(** X15.  For a request that matches a page route or no route at all,
    whatever the module does (return, throw, reject), the route dispatcher
    leaves Content-Type at text/html: the only other header it touches is
    Link, and the handlers that follow it set none. *)
Theorem route_dispatcher_serves_html (x : exchange) :
  match first_match (routes S) (pathname (req x)) with
  | Some route => Route.type route = Route.page
  | None => True
  end →
  let x' := effects (find_route S cache x) x in
  headers (res x') !! "Content-Type" = Some "text/html"
  ∧ (∀ name, name ≠ "Content-Type" → name ≠ "Link" →
       headers (res x') !! name = headers (res x) !! name)
  ∧ headers (res (effects (handle_not_found S cache x') x')) = headers (res x').
Proof.
  intros Hpage x'. subst x'. unfold find_route.
  destruct (first_match (routes S) (pathname (req x))) as [route|].
  - pose proof (page_script_headers route (setHeader "Content-Type" "text/html" x))
      as Hkeep.
    destruct (handle_route S route _ cache) as [acts err]. cbn [effects fst snd] in *.
    split_and!; [| |done].
    + rewrite Hkeep by done. simpl. by rewrite lookup_insert_eq.
    + intros name Hct Hlink. rewrite Hkeep by done. simpl.
      by rewrite lookup_insert_ne.
  - simpl. split_and!; [by rewrite lookup_insert_eq | | done].
    intros name Hct _. by rewrite lookup_insert_ne.
Qed.

End ServesHtml.

Lemma route_dispatcher_serves_html_witness :
  headers (res (effects (find_route Demo.site Demo.cache
                           (set_pathname "/blog/gone" (Demo.get "/blog/gone")))
                  (set_pathname "/blog/gone" (Demo.get "/blog/gone"))))
    !! "Content-Type" = Some "text/html".
Proof.
  exact (proj1 (route_dispatcher_serves_html Demo.site Demo.cache
                  (set_pathname "/blog/gone" (Demo.get "/blog/gone")) eq_refl)).
Defined.

Lemma on_error_renders_witness :
  error_stack (TypeError "Cannot find module") = Returns (StackText EmptyString)
  ∧ body (res (effects (on_error Demo.site "/about" (TypeError "Cannot find module"))
                 (Demo.get "/about")))
    = ["<h1>TypeError</h1><p>/about</p><pre>Cannot find module</pre><pre></pre>"].
Proof.
  split; [reflexivity|].
  exact (proj1 (proj2 (on_error_renders Demo.site "/about"
                         (TypeError "Cannot find module") (StackText EmptyString)
                         (Demo.get "/about") eq_refl))).
Defined.
